(** * Normalization of nuclear level densities (ompy, [norm_nld.py])

    A shallow embedding of the class [NormNLD] of [ompy/norm_nld.py] and the
    properties its specification states about it.

    Numbers.  The program computes on IEEE binary64 values through numpy.
    Two models of these values are used:

    - [num], the exact model: a finite value is a real number and every
      operation on finite values is the exact real operation (no rounding,
      no overflow).  The value [NonFin] stands for a value outside the
      finite reals: the inf, -inf or nan that numpy returns where the real
      operation is undefined (a zero divisor, the logarithm of a
      non-positive number), and whatever is computed from one.  A result
      [Fin x] is exact; on a [NonFin] result the model says no more than
      that the computation left the finite reals.  Excitation energies are
      inputs that the program compares ([>], [argmin], interpolation):
      they are finite and have type [R].
    - [pyfloat], binary64 itself ([SpecFloat], precision 53, emax 1024)
      tagged with the dynamic type that decides what [/] does on a zero
      divisor: a Python [float] raises, a numpy [float64] returns inf or nan.
      [Float64] holds [normalize], [CT] and [EshiftFromT] on binary64
      values, for what rounding does to them.

    The exact model says what the formulas of the program compute; where a
    property holds in it and not on binary64 values, the property is
    stated for exact arithmetic and the binary64 behaviour is shown
    beside it.  Two operations whose binary64 result the exact model does
    not determine are taken from the environment: the distance
    [np.abs(x - E)] that [argmin] compares, and the identity test [is].

    Effects.  Calls to collaborators outside the file (the spin
    distribution, the discrete-level smoother, the optimizer, the sampler,
    the random generator) and [print]/[warnings.warn] are events appended to
    a trace; exceptions are the [Raise] results of the state monad [St]. *)

From Stdlib Require Import String Reals Lra Lia Bool Arith ZArith List.
From Stdlib Require Import SpecFloat.
Import ListNotations.

Set Implicit Arguments.

(* ================================================================== *)
(** * Part I: the program                                              *)
(* ================================================================== *)

(** ** Exact model of float64 values *)

Inductive num : Type :=
| Fin (x : R)
| NonFin.

Declare Scope num_scope.
Delimit Scope num_scope with num.
Bind Scope num_scope with num.

(** numpy's scalar and elementwise operations ([np.exp], [np.log], ...). *)
Module Np.

Definition lift1 (f : R -> R) (a : num) : num :=
  match a with
  | Fin x => Fin (f x)
  | NonFin => NonFin
  end.

Definition lift2 (f : R -> R -> R) (a b : num) : num :=
  match a, b with
  | Fin x, Fin y => Fin (f x y)
  | _, _ => NonFin
  end.

Definition add : num -> num -> num := lift2 Rplus.
Definition subtract : num -> num -> num := lift2 Rminus.
Definition multiply : num -> num -> num := lift2 Rmult.
Definition negative : num -> num := lift1 Ropp.

(** [a / b]: inf or nan on a zero divisor. *)
Definition divide (a b : num) : num :=
  match a, b with
  | Fin x, Fin y => if Req_dec_T y 0 then NonFin else Fin (x / y)
  | _, _ => NonFin
  end.

Definition exp : num -> num := lift1 Rtrigo_def.exp.

(** [np.log]: -inf at zero, nan below. *)
Definition log (a : num) : num :=
  match a with
  | Fin x => if Rlt_dec 0 x then Fin (ln x) else NonFin
  | NonFin => NonFin
  end.

(** [np.sqrt]: nan below zero. *)
Definition sqrt (a : num) : num :=
  match a with
  | Fin x => if Rle_dec 0 x then Fin (R_sqrt.sqrt x) else NonFin
  | NonFin => NonFin
  end.

(** [a ** 2.] *)
Definition square (a : num) : num := multiply a a.

Definition abs : num -> num := lift1 Rabs.

(** [x == 0]; false on nan and on the infinities. *)
Definition eq0 (a : num) : bool :=
  match a with
  | Fin x => if Req_dec_T x 0 then true else false
  | NonFin => false
  end.

(** [np.sum] of a one-dimensional array. *)
Definition sum (a : list num) : num := fold_right add (Fin 0) a.

(** [a.mean()] *)
Definition mean (a : list num) : num :=
  divide (sum a) (Fin (INR (length a))).

(** [a.std()]: the population standard deviation
    [sqrt(mean(abs(a - a.mean())**2))]. *)
Definition std (a : list num) : num :=
  let m := mean a in
  sqrt (mean (map (fun x => square (abs (subtract x m))) a)).

End Np.

Infix "+" := Np.add : num_scope.
Infix "-" := Np.subtract : num_scope.
Infix "*" := Np.multiply : num_scope.
Infix "/" := Np.divide : num_scope.
Notation "- x" := (Np.negative x) : num_scope.

(** ** Exceptions and results *)

Inductive exn : Type :=
| RuntimeError (msg : string)
| TypeError (msg : string)
| ValueError (msg : string)
| KeyError (key : string)
| IndexError
| ZeroDivisionError
| UnboundLocalError (name : string)
| AttributeError (name : string)
| Exception_ (msg : string).

Inductive result (A : Type) : Type :=
| Ok (a : A)
| Raise (e : exn).

Arguments Ok {A} a.
Arguments Raise {A} e.

(** ** Arrays *)

(** The level density table [nld]: rows [[Ex, value]] (shape [(n, 2)]) or
    [[Ex, value, uncertainty]] (shape [(n, 3)]). *)
Inductive curve : Type :=
| Cols2 (rows : list (R * num))
| Cols3 (rows : list (R * num * num)).

(** [nld.shape[1]] *)
Definition shape1 (nld : curve) : nat :=
  match nld with
  | Cols2 _ => 2
  | Cols3 _ => 3
  end.

(** [len(nld)] *)
Definition len (nld : curve) : nat :=
  match nld with
  | Cols2 rows => length rows
  | Cols3 rows => length rows
  end.

(** [nld[:, 0]] *)
Definition col0 (nld : curve) : list R :=
  match nld with
  | Cols2 rows => map fst rows
  | Cols3 rows => map (fun r => fst (fst r)) rows
  end.

(** [nld[:, 1]] *)
Definition col1 (nld : curve) : list num :=
  match nld with
  | Cols2 rows => map snd rows
  | Cols3 rows => map (fun r => snd (fst r)) rows
  end.

(** [nld[:, 2]], present when [shape1 nld = 3]. *)
Definition col2 (nld : curve) : list num :=
  match nld with
  | Cols2 _ => []
  | Cols3 rows => map snd rows
  end.

(** [a[i:j]] for indices [0 <= i], [0 <= j]. *)
Definition slice {A : Type} (i j : nat) (a : list A) : list A :=
  firstn (j - i) (skipn i a).

(** [nld[i:j, :]] *)
Definition slice_rows (i j : nat) (nld : curve) : curve :=
  match nld with
  | Cols2 rows => Cols2 (slice i j rows)
  | Cols3 rows => Cols3 (slice i j rows)
  end.

Fixpoint map2 {A B C : Type} (f : A -> B -> C) (a : list A) (b : list B)
  : list C :=
  match a, b with
  | x :: a', y :: b' => f x y :: map2 f a' b'
  | _, _ => []
  end.

(** An elementwise binary operation on two one-dimensional arrays with
    numpy's broadcasting rule: equal lengths, or one operand of length 1. *)
Definition broadcast (f : num -> num -> num) (a b : list num)
  : result (list num) :=
  if Nat.eqb (length a) (length b) then Ok (map2 f a b)
  else match a, b with
       | [x], _ => Ok (map (f x) b)
       | _, [y] => Ok (map (fun x => f x y) a)
       | _, _ => Raise (ValueError "operands could not be broadcast together")
       end.

(** The in-place form [a /= b]: the result keeps the shape of [a], so only
    [b] may be stretched. *)
Definition broadcast_inplace (f : num -> num -> num) (a b : list num)
  : result (list num) :=
  if Nat.eqb (length a) (length b) then Ok (map2 f a b)
  else match b with
       | [y] => Ok (map (fun x => f x y) a)
       | _ => Raise (ValueError "non-broadcastable output operand")
       end.

(** [np.c_[a, b]] of two one-dimensional arrays: the rows [[a_i, b_i]]. *)
Definition c_ {A B : Type} (a : list A) (b : list B) : result (list (A * B)) :=
  if Nat.eqb (length a) (length b) then Ok (combine a b)
  else Raise (ValueError "all the input array dimensions must match exactly").

(** [np.linspace(start, stop, num)] *)
Definition linspace (start stop : R) (num : nat) : list R :=
  let step := ((stop - start) / INR (num - 1))%R in
  map (fun i => (start + INR i * step)%R) (seq 0 num).

(** [a.argmin()]: the first index of the least element. *)
Fixpoint argmin_from (best : R) (ibest i : nat) (a : list R) : nat :=
  match a with
  | [] => ibest
  | x :: a' =>
      if Rlt_dec x best then argmin_from x i (S i) a'
      else argmin_from best ibest (S i) a'
  end.

Definition argmin (a : list R) : result nat :=
  match a with
  | [] => Raise (ValueError "attempt to get argmin of an empty sequence")
  | x :: a' => Ok (argmin_from x 0 1 a')
  end.

(** [np.any(a > bound)] *)
Definition any_gt (a : list R) (bound : R) : bool :=
  existsb (fun x => if Rgt_dec x bound then true else false) a.

(** The finite values of an array, when all are finite. *)
Fixpoint reals (a : list num) : option (list R) :=
  match a with
  | [] => Some []
  | Fin x :: a' => option_map (cons x) (reals a')
  | NonFin :: _ => None
  end.

Fixpoint insert_sorted (x : R) (l : list R) : list R :=
  match l with
  | [] => [x]
  | y :: l' => if Rle_dec x y then x :: l else y :: insert_sorted x l'
  end.

Definition sort (l : list R) : list R := fold_right insert_sorted [] l.

(** [np.median] of a one-dimensional array: the middle of the sorted
    values, or the mean of the two middle ones; nan on an empty array. *)
Definition median (a : list num) : num :=
  match reals a with
  | None => NonFin
  | Some l =>
      let s := sort l in
      let n := length s in
      if Nat.eqb n 0 then NonFin
      else if Nat.even n
           then Fin ((nth (n / 2 - 1) s 0 + nth (n / 2) s 0) / 2)%R
           else Fin (nth (n / 2) s 0%R)
  end.

(** The columns of a two-dimensional array with [n] columns given by its
    rows (what a reduction with [axis=0] runs over). *)
Definition columns (n : nat) (rows : list (list num)) : list (list num) :=
  map (fun j => map (fun row => nth j row NonFin) rows) (seq 0 n).

(** ** Parameter groups *)

(** [pspin]: the keyword arguments of [nldSn_from_D0] other than [D0];
    [spincutModel] defaults to [None] and [spincutPars] to [{}]. *)
Record PSpin (F : Type) : Type := mkPSpin {
  Sn : F;
  J_target : F;
  spincutModel : option string;
  spincutPars : list (string * F)
}.

(** An extrapolation model: a function of one energy, [T] and [Eshift] that
    numpy applies to every element of an energy array. *)
Definition nld_model : Type := num -> num -> num -> num.

(** [chi2_args = (nldModel, data_low, data_high, levels_smoothed, pspin)] *)
Record Chi2Args : Type := mkChi2Args {
  arg_nldModel : nld_model;
  arg_data_low : curve;
  arg_data_high : curve;
  arg_levels_smoothed : list num;
  arg_pspin : PSpin num
}.

(** [pnorm]: the parameters of the normalization method, by key. *)
Record PNorm : Type := mkPNorm {
  pn_nldE1 : option (R * num);
  pn_nldE2 : option (R * num);
  pn_E1_low : option R;
  pn_E2_low : option R;
  pn_E1_high : option R;
  pn_E2_high : option R;
  pn_bounds_diff_evo : option (list (R * R))
}.

(** [pext]: the parameters of the extrapolation, by key. *)
Record PExt : Type := mkPExt {
  px_ext_range : option (R * R);
  px_T : option num;
  px_Eshift : option num;
  px_nld_Sn : option (num * num);
  px_Earr : option (list R)
}.

(** [popt]: median and standard deviation of each fitted parameter. *)
Record Popt : Type := mkPopt {
  popt_A : num * num;
  popt_alpha : num * num;
  popt_T : num * num;
  popt_D0 : num * num
}.

(** [samples]: the equally weighted samples of each parameter, in the
    insertion order of the dict. *)
Definition Samples : Type := list (string * list num).

(** ** Events, the world and the monad *)

Inductive event (F : Type) : Type :=
| EvSpinFunctions (Ex J : F) (model : option string)
  (pars : list (string * F))
| EvWarn (msg : string)
| EvPrint (msg : string) (args : list num)
| EvGetDiscretes (Emids : list R) (fname : string) (resolution : R)
| EvDifferentialEvolution (bounds : list (R * R)) (args : Chi2Args)
| EvRunNld2Regions (p0 : list (string * num)) (args : Chi2Args)
| EvShuffle (n : nat)
| EvNormRvs (loc scale : list num).

Arguments EvWarn {F} msg.
Arguments EvPrint {F} msg args.
Arguments EvGetDiscretes {F} Emids fname resolution.
Arguments EvDifferentialEvolution {F} bounds args.
Arguments EvRunNld2Regions {F} p0 args.
Arguments EvShuffle {F} n.
Arguments EvNormRvs {F} loc scale.

(** The trace of events so far (oldest first) and the number of draws
    taken from the random generator. *)
Record world (F : Type) : Type := mkWorld {
  trace : list (event F);
  draws : nat
}.

(** Computations on a state [S] that return or raise. *)
Definition St (S A : Type) : Type := S -> result A * S.

Definition ret {S A : Type} (a : A) : St S A := fun s => (Ok a, s).

Definition bind {S A B : Type} (m : St S A) (k : A -> St S B) : St S B :=
  fun s =>
    match m s with
    | (Ok a, s') => k a s'
    | (Raise e, s') => (Raise e, s')
    end.

Definition raise {S A : Type} (e : exn) : St S A := fun s => (Raise e, s).

Definition of_result {S A : Type} (r : result A) : St S A :=
  match r with
  | Ok a => ret a
  | Raise e => raise e
  end.

(** The functions of the module act on the world. *)
Definition M (F A : Type) : Type := St (world F) A.

Definition emit {F : Type} (ev : event F) : M F unit :=
  fun w => (Ok tt, mkWorld (trace w ++ [ev]) (draws w)).

(** What a collaborator does on its own while it runs: the events it
    causes and the number of draws it takes from the random generator. *)
Definition effects {F : Type} (e : list (event F) * nat) : M F unit :=
  fun w => (Ok tt, mkWorld (trace w ++ fst e) (draws w + snd e)).

Declare Scope monad_scope.
Delimit Scope monad_scope with monad.
Notation "x <- m ;; k" := (bind m (fun x => k))
  (at level 61, m at next level, right associativity) : monad_scope.
Notation "' pat <- m ;; k" := (bind m (fun x => match x with pat => k end))
  (at level 61, pat pattern, m at next level, right associativity)
  : monad_scope.
Notation "m ;;; k" := (bind m (fun _ => k))
  (at level 61, right associativity) : monad_scope.

(** The world before anything happened. *)
Definition w0 {F : Type} : world F := mkWorld [] 0.

(** ** Python scalars *)

(** The scalar operations [nldSn_from_D0] applies to its arguments. *)
Class PyNumber (F : Type) : Type := {
  py_half : F;                        (* the value of [1 / 2] *)
  py_one : F;                         (* the literal [1] *)
  py_micro : F;                       (* the literal [1e-6] *)
  py_eq0 : F -> bool;                 (* [x == 0] *)
  py_add : F -> F -> F;
  py_sub : F -> F -> F;
  py_mul : F -> F -> F;
  py_truediv : F -> F -> result F
}.

(** numpy float64 scalars in the exact model: [/] never raises. *)
#[export] Instance num_PyNumber : PyNumber num := {
  py_half := Fin (1 / 2);
  py_one := Fin 1;
  py_micro := Fin (1 / 1000000);
  py_eq0 := Np.eq0;
  py_add := Np.add;
  py_sub := Np.subtract;
  py_mul := Np.multiply;
  py_truediv := fun a b => Ok (Np.divide a b)
}.

(** binary64 values with their dynamic type. *)
Inductive pyfloat : Type :=
| PyFloat (f : spec_float)        (* a Python [float] (or [int] literal) *)
| NpFloat64 (f : spec_float).     (* a numpy [float64] scalar *)

Module Binary64.

Definition prec : Z := 53.
Definition emax : Z := 1024.

Definition value (a : pyfloat) : spec_float :=
  match a with
  | PyFloat f => f
  | NpFloat64 f => f
  end.

Definition is_np (a : pyfloat) : bool :=
  match a with
  | PyFloat _ => false
  | NpFloat64 _ => true
  end.

(** The result of a binary operator is a numpy scalar as soon as one
    operand is ([np.float64] subclasses [float] and its reflected methods
    take precedence). *)
Definition retag (a b : pyfloat) (f : spec_float) : pyfloat :=
  if is_np a || is_np b then NpFloat64 f else PyFloat f.

Definition binop (op : spec_float -> spec_float -> spec_float)
           (a b : pyfloat) : pyfloat :=
  retag a b (op (value a) (value b)).

Definition is_zero (f : spec_float) : bool :=
  match f with
  | S754_zero _ => true
  | _ => false
  end.

(** [a / b]: [float.__truediv__] raises on a zero divisor; numpy returns
    the IEEE quotient (and reports a RuntimeWarning, not an error). *)
Definition truediv (a b : pyfloat) : result pyfloat :=
  if is_np a || is_np b then Ok (NpFloat64 (SFdiv prec emax (value a) (value b)))
  else if is_zero (value b) then Raise ZeroDivisionError
       else Ok (PyFloat (SFdiv prec emax (value a) (value b))).

Definition zero : spec_float := S754_zero false.
(** 0.5 = 2^52 * 2^-53 *)
Definition half : spec_float := S754_finite false 4503599627370496 (-53).
(** 1.0 = 2^52 * 2^-52 *)
Definition one : spec_float := S754_finite false 4503599627370496 (-52).
(** the binary64 value nearest to 1e-6 *)
Definition micro : spec_float := S754_finite false 4722366482869645 (-72).
Definition inf : spec_float := S754_infinity false.

(** An infinity or nan. *)
Definition is_nonfinite (f : spec_float) : bool :=
  match f with
  | S754_infinity _ | S754_nan => true
  | _ => false
  end.

End Binary64.

#[export] Instance pyfloat_PyNumber : PyNumber pyfloat := {
  py_half := PyFloat Binary64.half;
  py_one := PyFloat Binary64.one;
  py_micro := PyFloat Binary64.micro;
  py_eq0 := fun a => SFeqb (Binary64.value a) Binary64.zero;
  py_add := Binary64.binop (SFadd Binary64.prec Binary64.emax);
  py_sub := Binary64.binop (SFsub Binary64.prec Binary64.emax);
  py_mul := Binary64.binop (SFmul Binary64.prec Binary64.emax);
  py_truediv := Binary64.truediv
}.

(** ** The arithmetic of the transformation on binary64 values *)

(** [normalize], [CT] and [EshiftFromT] on numpy [float64] values, every
    operation rounded to binary64.  [np.exp] and [np.log] are functions of
    the C library, which the Standard Library does not define: the model
    knows them where every implementation is exact, [exp(+-0) = 1] and
    [log(1) = 0], and says [None] elsewhere. *)
Module Float64.

Definition add : spec_float -> spec_float -> spec_float :=
  SFadd Binary64.prec Binary64.emax.
Definition sub : spec_float -> spec_float -> spec_float :=
  SFsub Binary64.prec Binary64.emax.
Definition mul : spec_float -> spec_float -> spec_float :=
  SFmul Binary64.prec Binary64.emax.
Definition div : spec_float -> spec_float -> spec_float :=
  SFdiv Binary64.prec Binary64.emax.

Definition exp (x : spec_float) : option spec_float :=
  if Binary64.is_zero x then Some Binary64.one else None.

Definition log (x : spec_float) : option spec_float :=
  if SFeqb x Binary64.one then Some Binary64.zero else None.

(** [nld_val * A * np.exp(alpha * Ex)] *)
Definition normalize_value (Ex nld_val A alpha : spec_float)
  : option spec_float :=
  option_map (mul (mul nld_val A)) (exp (mul alpha Ex)).

(** [normalize(nld, A, alpha)] on a table of two columns. *)
Fixpoint normalize (nld : list (spec_float * spec_float))
  (A alpha : spec_float) : option (list (spec_float * spec_float)) :=
  match nld with
  | [] => Some []
  | (Ex, nld_val) :: rows =>
      match normalize_value Ex nld_val A alpha, normalize rows A alpha with
      | Some nld_norm, Some rows' => Some ((Ex, nld_norm) :: rows')
      | _, _ => None
      end
  end.

(** [np.exp((Earr - Eshift) / T) / T] *)
Definition CT (Earr T Eshift : spec_float) : option spec_float :=
  option_map (fun e => div e T) (exp (div (sub Earr Eshift) T)).

(** [nld_Sn[0] - T * np.log(nld_Sn[1] * T)] *)
Definition EshiftFromT (T : spec_float) (nld_Sn : spec_float * spec_float)
  : option spec_float :=
  option_map (fun l => sub (fst nld_Sn) (mul T l))
    (log (mul (snd nld_Sn) T)).

End Float64.

(** ** Collaborators outside the file *)

(** What the collaborators return.  The random generator is read through
    the number of draws taken so far.  The optimizer and the sampler are
    handed [chi2_disc_ext] and evaluate it as often as they choose: the
    events of these evaluations (calls of the spin distribution) and the
    random draws they take are theirs to say.  Two operations of the
    runtime come with the laws that hold of them:
    - [a is b] on the method name, Python's identity of objects, which
      holds of equal strings only, and of an equal string only when it is
      the same object (as an interned literal is);
    - [np.abs(x - E)] on binary64 energies, the absolute value of the
      rounded difference: it is never negative and it is zero for equal
      energies alone (binary64 subtraction has gradual underflow). *)
Record Externals : Type := mkEnvironment {
  (** [SpinFunctions(Ex, J, model, pars).distibution()] *)
  ext_distibution :
    num -> num -> option string -> list (string * num) -> num;
  (** [lib.get_discretes(Emids, fname, resolution)]: the smoothed levels
      and a second array *)
  ext_get_discretes : list R -> string -> R -> list num * list num;
  (** [differential_evolution(chi2_disc_ext, bounds, args).x] *)
  ext_differential_evolution : list (R * R) -> Chi2Args -> list num;
  (** [run_nld_2regions(p0, chi2_args)] *)
  ext_run_nld_2regions : list (string * num) -> Chi2Args -> Popt * Samples;
  (** [np.random.shuffle] of [np.arange(n)] at a given draw *)
  ext_shuffle : nat -> nat -> list nat;
  (** the standard normal deviate of a bin at a given draw *)
  ext_standard_normal : nat -> nat -> R;
  (** what the optimizer causes while it runs *)
  ext_optimizer_effects :
    list (R * R) -> Chi2Args -> list (event num) * nat;
  (** what the sampler causes while it runs *)
  ext_sampler_effects :
    list (string * num) -> Chi2Args -> list (event num) * nat;
  (** [a is b] *)
  ext_is : string -> string -> bool;
  ext_is_eq : forall a b, ext_is a b = true -> a = b;
  (** [np.abs(x - E)] *)
  ext_abs_diff : R -> R -> R;
  ext_abs_diff_nonneg : forall x E, (0 <= ext_abs_diff x E)%R;
  ext_abs_diff_zero : forall x E, ext_abs_diff x E = 0%R <-> x = E
}.

(** The exact distance has the laws of [ext_abs_diff]. *)
Definition Rabs_minus_zero (x E : R) : Rabs (x - E) = 0%R <-> x = E :=
  conj
    (fun H : Rabs (x - E) = 0%R =>
       Rminus_diag_uniq x E
         (match Req_dec (x - E) 0 with
          | or_introl e => e
          | or_intror n => False_ind _ (Rabs_no_R0 (x - E) n H)
          end))
    (fun H : x = E =>
       eq_trans (f_equal Rabs (Rminus_diag_eq x E H)) Rabs_R0).

(** Collaborators given by what they return alone: the optimizer and the
    sampler cause nothing on their own, equal strings are one object, and
    the distance is the exact one. *)
Definition mkExternals
  (distibution : num -> num -> option string -> list (string * num) -> num)
  (get_discretes : list R -> string -> R -> list num * list num)
  (differential_evolution : list (R * R) -> Chi2Args -> list num)
  (run_nld_2regions : list (string * num) -> Chi2Args -> Popt * Samples)
  (shuffle : nat -> nat -> list nat) (standard_normal : nat -> nat -> R)
  : Externals :=
  mkEnvironment distibution get_discretes differential_evolution
    run_nld_2regions shuffle standard_normal
    (fun _ _ => ([], 0%nat)) (fun _ _ => ([], 0%nat))
    String.eqb (fun a b => proj1 (String.eqb_eq a b))
    (fun x E => Rabs (x - E)) (fun x E => Rabs_pos (x - E)) Rabs_minus_zero.

(** ** Dictionaries *)

(** [d[key]] on an optional entry. *)
Definition getitem {S A : Type} (key : string) (v : option A) : St S A :=
  match v with
  | Some a => ret a
  | None => raise (KeyError key)
  end.

(** [d[key]] on a dict kept in insertion order. *)
Fixpoint lookup {A : Type} (key : string) (d : list (string * A))
  : option A :=
  match d with
  | [] => None
  | (k, v) :: d' => if String.eqb k key then Some v else lookup key d'
  end.

(** [d[key] = v]: a present key keeps its place, a new one goes last. *)
Fixpoint dict_set {A : Type} (key : string) (v : A) (d : list (string * A))
  : list (string * A) :=
  match d with
  | [] => [(key, v)]
  | (k, v') :: d' =>
      if String.eqb k key then (k, v) :: d' else (k, v') :: dict_set key v d'
  end.

(** [a[i]] for [0 <= i]. *)
Definition index {S A : Type} (a : list A) (i : nat) : St S A :=
  match nth_error a i with
  | Some x => ret x
  | None => raise IndexError
  end.

(** A loop that collects one result per element. *)
Fixpoint mapM {S A B : Type} (f : A -> St S B) (l : list A) : St S (list B) :=
  match l with
  | [] => ret []
  | a :: l' => bind (f a) (fun b => bind (mapM f l') (fun bs => ret (b :: bs)))
  end.

(** ** The class [NormNLD] *)

Module NormNLD.

Local Open Scope monad_scope.

(** *** [nldSn_from_D0] *)
Section ResonanceSpacing.

Context {F : Type} {PN : PyNumber F}.

(** What [SpinFunctions(Ex, J, model, pars).distibution()] returns. *)
Variable distibution : F -> F -> option string -> list (string * F) -> F.

(** The call [SpinFunctions(Ex=.., J=.., model=.., pars=..).distibution()]. *)
Definition SpinFunctions (Ex J : F) (model : option string)
           (pars : list (string * F)) : M F F :=
  emit (EvSpinFunctions Ex J model pars) ;;;
  ret (distibution Ex J model pars).

Definition nldSn_from_D0 (D0 Sn J_target : F)
           (spincutModel : option string)
           (spincutPars : list (string * F)) : M F (F * F) :=
  let g (J : F) := SpinFunctions Sn J spincutModel spincutPars in
  summe <-
    (if py_eq0 J_target then
       g (py_add J_target py_half)
     else
       a <- g (py_sub J_target py_half) ;;
       b <- g (py_add J_target py_half) ;;
       ret (py_mul py_half (py_add a b))) ;;
  nld <- of_result
           (py_truediv py_one (py_mul (py_mul summe D0) py_micro)) ;;
  ret (Sn, nld).

End ResonanceSpacing.

Local Open Scope num_scope.

(** *** [normalize] *)
Definition normalize (nld : curve) (A alpha : num) : curve :=
  match nld with
  | Cols2 rows =>
      Cols2 (map (fun '(Ex, nld_val) =>
                    let nld_norm := nld_val * A * Np.exp (alpha * Fin Ex) in
                    (Ex, nld_norm)) rows)
  | Cols3 rows =>
      Cols3 (map (fun '(Ex, nld_val, unc) =>
                    let rel_unc := unc / nld_val in
                    let nld_norm := nld_val * A * Np.exp (alpha * Fin Ex) in
                    (Ex, nld_norm, nld_norm * rel_unc)) rows)
  end.

(** *** [CT]: constant temperature level density *)
Definition CT (Earr T Eshift : num) : num :=
  Np.exp ((Earr - Eshift) / T) / T.

(** *** [EshiftFromT] *)
Definition EshiftFromT (T : num) (nld_Sn : num * num) : num :=
  fst nld_Sn - T * Np.log (snd nld_Sn * T).

(** *** [chi2_disc_ext] *)

(** What [chi2_disc_ext] returns: [chi2], or with [returnPars] the tuple
    [(chi2, (nld_Sn, Eshift))]. *)
Inductive chi2_result : Type :=
  | Chi2 (chi2 : num)
  | Chi2Pars (chi2 : num) (nld_Sn : num * num) (Eshift : num).


Section Chi2.

Variable distibution :
  num -> num -> option string -> list (string * num) -> num.

Definition chi2_disc_ext (x : list num) (nldModel : nld_model)
           (data_low data_high : curve) (levels_smoothed : list num)
           (pspin : PSpin num) (returnPars : bool)
  : M num chi2_result :=
  match x with
  | [] | [_] =>
      raise (ValueError "not enough values to unpack (expected 2)")
  | [_; _] | [_; _; _] => raise IndexError
  | A :: alpha :: T :: D0 :: _ =>
      let data := normalize data_low A alpha in
      chi2 <- of_result
                (broadcast Np.subtract (col1 data) levels_smoothed) ;;
      let chi2 := map Np.square chi2 in
      chi2 <- (if Nat.eqb (shape1 data) 3 then
                 of_result (broadcast_inplace Np.divide chi2
                              (map Np.square (col2 data)))
               else ret chi2) ;;
      let chi2_low := Np.sum chi2 in

      let data := normalize data_high A alpha in
      nld_Sn <- nldSn_from_D0 distibution D0 (Sn pspin) (J_target pspin)
                  (spincutModel pspin) (spincutPars pspin) ;;
      let Eshift := EshiftFromT T nld_Sn in
      chi2 <- of_result
                (broadcast Np.subtract (col1 data)
                   (map (fun E => nldModel (Fin E) T Eshift)
                        (col0 data))) ;;
      let chi2 := map Np.square chi2 in
      chi2 <- (if Nat.eqb (shape1 data) 3 then
                 of_result (broadcast_inplace Np.divide chi2
                              (map Np.square (col2 data)))
               else ret chi2) ;;
      let chi2_high := Np.sum chi2 in

      let chi2 := chi2_low + chi2_high in
      if returnPars then ret (Chi2Pars chi2 nld_Sn Eshift)
      else ret (Chi2 chi2)
  end.

End Chi2.

(** *** The object *)

(** The fields of a [NormNLD] object; the fields that [__init__] and the
    methods assign later start as [None]. *)
Record Self : Type := mkSelf {
  self_nld : curve;
  self_method : string;
  self_pnorm : PNorm;
  self_nldModel : string;
  self_pext : PExt;
  self_pspin : PSpin num;
  self_D0 : num;
  self_fname_discretes : string;
  self_nld_norm : option curve;
  self_discretes : option (list (R * num));
  self_A_norm : option num;
  self_alpha_norm : option num;
  self_T : option num;
  self_multinest_samples : option Samples;
  self_nld_ext : option (list (R * num));
  self_chi2_args : option Chi2Args
}.

(** Methods act on the object and on the world. *)
Definition Method (A : Type) : Type := St (Self * world num) A.

Definition static {A : Type} (m : M num A) : Method A :=
  fun '(self, w) => let (r, w') := m w in (r, (self, w')).

Definition get_self : Method Self := fun '(self, w) => (Ok self, (self, w)).

Definition update (f : Self -> Self) : Method unit :=
  fun '(self, w) => (Ok tt, (f self, w)).

(** A function that mutates the dict [self.pext] it is given. *)
Definition on_pext {A : Type} (m : St (PExt * world num) A) : Method A :=
  fun '(self, w) =>
    let '(r, (pext, w')) := m (self_pext self, w) in
    (r, (mkSelf (self_nld self) (self_method self) (self_pnorm self)
           (self_nldModel self) pext (self_pspin self) (self_D0 self)
           (self_fname_discretes self) (self_nld_norm self)
           (self_discretes self) (self_A_norm self) (self_alpha_norm self)
           (self_T self) (self_multinest_samples self) (self_nld_ext self)
           (self_chi2_args self), w')).

Definition set_pext (f : PExt -> PExt) (self : Self) : Self :=
  mkSelf (self_nld self) (self_method self) (self_pnorm self)
    (self_nldModel self) (f (self_pext self)) (self_pspin self) (self_D0 self)
    (self_fname_discretes self) (self_nld_norm self) (self_discretes self)
    (self_A_norm self) (self_alpha_norm self) (self_T self)
    (self_multinest_samples self) (self_nld_ext self) (self_chi2_args self).

Definition set_nld_norm (v : option curve) (self : Self) : Self :=
  mkSelf (self_nld self) (self_method self) (self_pnorm self)
    (self_nldModel self) (self_pext self) (self_pspin self) (self_D0 self)
    (self_fname_discretes self) v (self_discretes self)
    (self_A_norm self) (self_alpha_norm self) (self_T self)
    (self_multinest_samples self) (self_nld_ext self) (self_chi2_args self).

Definition set_discretes (v : option (list (R * num))) (self : Self) : Self :=
  mkSelf (self_nld self) (self_method self) (self_pnorm self)
    (self_nldModel self) (self_pext self) (self_pspin self) (self_D0 self)
    (self_fname_discretes self) (self_nld_norm self) v
    (self_A_norm self) (self_alpha_norm self) (self_T self)
    (self_multinest_samples self) (self_nld_ext self) (self_chi2_args self).

Definition set_fit (A_norm alpha_norm T : num) (samples : Samples)
  (self : Self) : Self :=
  mkSelf (self_nld self) (self_method self) (self_pnorm self)
    (self_nldModel self) (self_pext self) (self_pspin self) (self_D0 self)
    (self_fname_discretes self) (self_nld_norm self) (self_discretes self)
    (Some A_norm) (Some alpha_norm) (Some T) (Some samples)
    (self_nld_ext self) (self_chi2_args self).

Definition set_nld_ext (v : option (list (R * num))) (self : Self) : Self :=
  mkSelf (self_nld self) (self_method self) (self_pnorm self)
    (self_nldModel self) (self_pext self) (self_pspin self) (self_D0 self)
    (self_fname_discretes self) (self_nld_norm self) (self_discretes self)
    (self_A_norm self) (self_alpha_norm self) (self_T self)
    (self_multinest_samples self) v (self_chi2_args self).

Definition set_chi2_args (v : option Chi2Args) (self : Self) : Self :=
  mkSelf (self_nld self) (self_method self) (self_pnorm self)
    (self_nldModel self) (self_pext self) (self_pspin self) (self_D0 self)
    (self_fname_discretes self) (self_nld_norm self) (self_discretes self)
    (self_A_norm self) (self_alpha_norm self) (self_T self)
    (self_multinest_samples self) (self_nld_ext self) v.

(** Updates of one key of [pext]. *)
Definition pext_set_T (v : num) (p : PExt) : PExt :=
  mkPExt (px_ext_range p) (Some v) (px_Eshift p) (px_nld_Sn p) (px_Earr p).

Definition pext_set_Eshift (v : num) (p : PExt) : PExt :=
  mkPExt (px_ext_range p) (px_T p) (Some v) (px_nld_Sn p) (px_Earr p).

Definition pext_set_nld_Sn (v : num * num) (p : PExt) : PExt :=
  mkPExt (px_ext_range p) (px_T p) (px_Eshift p) (Some v) (px_Earr p).

Definition pext_set_Earr (v : list R) (p : PExt) : PExt :=
  mkPExt (px_ext_range p) (px_T p) (px_Eshift p) (px_nld_Sn p) (Some v).

(** *** Interpolation *)

(** The straight line through [(x0, y0)] and [(x1, y1)] at [x]. *)
Definition line (x0 : R) (y0 : num) (x1 : R) (y1 : num) (x : R) : num :=
  (y1 - y0) / Fin (x1 - x0) * Fin (x - x0) + y0.

(** The piecewise linear interpolant through the points [pts] at an [x]
    not below the first abscissa: the segment that ends at the first
    abscissa not below [x]. *)
Fixpoint lin_interp (pts : list (R * num)) (x : R) : option num :=
  match pts with
  | (x0, y0) :: ((x1, y1) :: _) as rest =>
      if Rle_dec x x1 then Some (line x0 y0 x1 y1 x) else lin_interp rest x
  | _ => None
  end.

(** Modelled from the spec: [lib.log_interp1d(Ex, nld, bounds_error=True)]
    of [ompy/library.py], which is not part of this file.  The
    specification describes its result [f] as a log-linear interpolation of
    the input curve that fails loudly, with a bounds error, at a point
    outside the energy range of the curve: [f(x)] is the exponential of the
    piecewise linear interpolant of [(Ex_i, log nld_i)] at [x]. *)
Definition log_interp1d (Ex : list R) (nld : list num) (x : R)
  : result num :=
  match Ex with
  | [] | [_] => Raise (ValueError "x and y arrays must have at least 2 entries")
  | x0 :: _ =>
      if Rlt_dec x x0 then
        Raise (ValueError "A value in x_new is below the interpolation range.")
      else
        match lin_interp (combine Ex (map Np.log nld)) x with
        | Some y => Ok (Np.exp y)
        | None =>
            Raise (ValueError "A value in x_new is above the interpolation range.")
        end
  end.

Section Driver.

Variable ext : Externals.

(** [self.get_discretes(Emids, resolution=..)] with [fname=None]. *)
Definition get_discretes (Emids : list R) (resolution : R)
  : Method (list num * list num) :=
  self <- get_self ;;
  let fname := self_fname_discretes self in
  static (emit (EvGetDiscretes Emids fname resolution)) ;;;
  ret (ext_get_discretes ext Emids fname resolution).

(** *** [norm_2points] *)
Definition norm_2points : Method (list num * num * num) :=
  self <- get_self ;;
  let Ex := col0 (self_nld self) in
  let nld := col1 (self_nld self) in
  '(E1, nldE1) <- getitem "nldE1" (pn_nldE1 (self_pnorm self)) ;;
  '(E2, nldE2) <- getitem "nldE2" (pn_nldE2 (self_pnorm self)) ;;
  let fnld := log_interp1d Ex nld in
  fE1 <- of_result (fnld E1) ;;
  fE2 <- of_result (fnld E2) ;;
  let alpha := Np.log ((nldE2 * fE1) / (nldE1 * fE2)) / Fin (E2 - E1) in
  fE2' <- of_result (fnld E2) ;;
  let A := nldE2 / fE2' * Np.exp (- alpha * Fin E2) in
  static (emit (EvPrint "" [A])) ;;;
  static (emit (EvPrint "Normalization parameters: alpha={0:1.2e} A={1:1.2e}"
                  [alpha; A])) ;;;
  let nld_norm :=
    map2 (fun nld_i Ex_i => nld_i * A * Np.exp (alpha * Fin Ex_i)) nld Ex in
  ret (nld_norm, A, alpha).

(** Modelled from the spec: [lib.call_model(fun, pars, pars_req)] of
    [ompy/library.py], which is not part of this file: each dispatch
    carries the set of parameter names it requires; the function is called
    with the parameters when all of them are given, and a [TypeError] is
    raised otherwise.  [present] tells whether each required name is
    given. *)
Definition call_model {S A : Type} (fn : St S A) (present : list bool)
  : St S A :=
  if forallb (fun b => b) present then fn
  else raise (TypeError "Error: Need following arguments for this method").

Definition isSome {A : Type} (o : option A) : bool :=
  match o with
  | Some _ => true
  | None => false
  end.

(** *** [extrapolate] *)

Definition get_pars {W : Type} : St (PExt * W) PExt :=
  fun '(pars, w) => (Ok pars, (pars, w)).

Definition update_pars {W : Type} (f : PExt -> PExt) : St (PExt * W) unit :=
  fun '(pars, w) => (Ok tt, (f pars, w)).

(** [extrapolate(model, pars)]; the state holds the dict [pars], which the
    function changes in place. *)
Definition extrapolate (model : string)
  : St (PExt * world num) (list (R * num)) :=
  pars <- get_pars ;;
  ext_range <- getitem "ext_range" (px_ext_range pars) ;;
  let Earr := linspace (fst ext_range) (snd ext_range) 50 in
  values <-
    (if String.eqb model "CT" then
       (* [("nld_Sn" in pars) and ("Eshift" in pars == False)]: the chained
          comparison is [("Eshift" in pars) and (pars == False)], and a dict
          never equals [False]. *)
       (if isSome (px_nld_Sn pars) && (isSome (px_Eshift pars) && false) then
          T <- getitem "T" (px_T pars) ;;
          nld_Sn <- getitem "nld_Sn" (px_nld_Sn pars) ;;
          update_pars (pext_set_Eshift (EshiftFromT T nld_Sn))
        else ret tt) ;;;
       update_pars (pext_set_Earr Earr) ;;;
       pars <- get_pars ;;
       call_model
         (Earr <- getitem "Earr" (px_Earr pars) ;;
          T <- getitem "T" (px_T pars) ;;
          Eshift <- getitem "Eshift" (px_Eshift pars) ;;
          ret (map (fun E => CT (Fin E) T Eshift) Earr))
         [isSome (px_T pars); isSome (px_Eshift pars)]
     else
       raise (TypeError "Error: NLD model not supported; check spelling")) ;;
  of_result (c_ Earr values).

(** *** [find_norm] *)

(** The call [differential_evolution(self.chi2_disc_ext, bounds, args)]. *)
Definition differential_evolution (bounds : list (R * R)) (args : Chi2Args)
  : M num (list num) :=
  emit (EvDifferentialEvolution bounds args) ;;;
  effects (ext_optimizer_effects ext bounds args) ;;;
  ret (ext_differential_evolution ext bounds args).

(** The call [run_nld_2regions(p0=p0, chi2_args=chi2_args)]. *)
Definition run_nld_2regions (p0 : list (string * num)) (args : Chi2Args)
  : M num (Popt * Samples) :=
  emit (EvRunNld2Regions p0 args) ;;;
  effects (ext_sampler_effects ext p0 args) ;;;
  ret (ext_run_nld_2regions ext p0 args).

(** [np.abs(nld[:, 0] - E).argmin()]: the first index of the least of the
    distances as they are computed. *)
Definition nearest (nld : curve) (E : R) : result nat :=
  argmin (map (fun Ex => ext_abs_diff ext Ex E) (col0 nld)).

Definition find_norm : Method (Popt * Samples) :=
  self <- get_self ;;
  let nld := self_nld self in
  (* further parameters *)
  let pnorm := self_pnorm self in
  E1_low <- getitem "E1_low" (pn_E1_low pnorm) ;;
  E2_low <- getitem "E2_low" (pn_E2_low pnorm) ;;
  E1_high <- getitem "E1_high" (pn_E1_high pnorm) ;;
  E2_high <- getitem "E2_high" (pn_E2_high pnorm) ;;
  let pspin := self_pspin self in

  (* slice out comparison regions *)
  idE1 <- of_result (nearest nld E1_low) ;;
  idE2 <- of_result (nearest nld E2_low) ;;
  let data_low := slice_rows idE1 idE2 nld in

  (* Get discretes (for the lower energies) *)
  '(levels_smoothed, _) <- get_discretes (col0 nld) (1 / 10) ;;
  let levels_smoothed := slice idE1 idE2 levels_smoothed in
  discretes <- of_result (c_ (slice idE1 idE2 (col0 nld)) levels_smoothed) ;;
  update (set_discretes (Some discretes)) ;;;

  idE1 <- of_result (nearest nld E1_high) ;;
  idE2 <- of_result (nearest nld E2_high) ;;
  let data_high := slice_rows idE1 idE2 nld in

  (* the local [nldModel] is bound in the first branch alone *)
  nldModel <-
    (if String.eqb (self_nldModel self) "CT" then ret (Some CT)
     else
       static (emit (EvPrint "Other models not yet supported in this fit" [])) ;;;
       ret None) ;;

  nldModel <- (match nldModel with
               | Some f => ret f
               | None => raise (UnboundLocalError "nldModel")
               end) ;;
  let chi2_args :=
    mkChi2Args nldModel data_low data_high levels_smoothed pspin in
  bounds <- getitem "bounds_diff_evo" (pn_bounds_diff_evo pnorm) ;;
  res_x <- static (differential_evolution bounds chi2_args) ;;
  static (emit (EvPrint "Result from find_norm / differential evolution:"
                  res_x)) ;;;

  let p0 := combine ["A"; "alpha"; "T"; "D0"]%string res_x in
  (* overwrite result for D0, as we have a "correct" prior for it *)
  let p0 := dict_set "D0" (self_D0 self) p0 in
  '(popt, samples) <- static (run_nld_2regions p0 chi2_args) ;;

  (* set extrapolation as the median values used *)
  update (set_pext (pext_set_T (fst (popt_T popt)))) ;;;
  nld_Sn <- static (nldSn_from_D0 (ext_distibution ext) (fst (popt_D0 popt))
                      (Sn pspin) (J_target pspin) (spincutModel pspin)
                      (spincutPars pspin)) ;;
  update (set_pext (pext_set_nld_Sn nld_Sn)) ;;;
  update (set_pext (pext_set_Eshift (EshiftFromT (fst (popt_T popt)) nld_Sn))) ;;;
  nld_ext <- on_pext (extrapolate (self_nldModel self)) ;;
  update (set_nld_ext (Some nld_ext)) ;;;

  (* Easier access in normGSF.chi2_nld_gsf() *)
  update (set_chi2_args (Some chi2_args)) ;;;
  ret (popt, samples).

(** *** [normalize_scanning_samples] *)

(** [np.random.shuffle(randlist)] on [randlist = np.arange(n)]. *)
Definition shuffle_arange (n : nat) : M num (list nat) :=
  fun w =>
    (Ok (ext_shuffle ext (draws w) n),
     mkWorld (trace w ++ [EvShuffle n]) (S (draws w))).

(** A negative number. *)
Definition negative (a : num) : bool :=
  match a with
  | Fin x => if Rlt_dec x 0 then true else false
  | NonFin => false
  end.

(** [stats.norm.rvs(loc, scale)]: scipy checks its arguments first and
    refuses a negative standard deviation with [ValueError]; otherwise
    one normal deviate per bin, of mean [loc] and standard deviation
    [scale], that is [loc + scale * z] for a standard normal [z]. *)
Definition norm_rvs (loc scale : list num) : M num (list num) :=
  fun w =>
    if existsb negative scale then
      (Raise (ValueError "Domain error in arguments."),
       mkWorld (trace w ++ [EvNormRvs loc scale]) (draws w))
    else
      let z := fun bin => Fin (ext_standard_normal ext (draws w) bin) in
      (Ok (map (fun '(bin, (l, s)) => l + s * z bin)
               (combine (seq 0 (length loc)) (combine loc scale))),
       mkWorld (trace w ++ [EvNormRvs loc scale]) (S (draws w))).

Definition normalize_scanning_samples (popt : Popt) (samples : Samples)
  : Method unit :=
  self <- get_self ;;
  let nld := self_nld self in
  let Ex := col0 nld in

  (* need to sweep though multinest samples at random! *)
  let N_samples :=
    match samples with
    | (key, value) :: _ => Some (length value)
    | [] => None
    end in
  N_samples <- (match N_samples with
                | Some n => ret n
                | None => raise (UnboundLocalError "N_samples")
                end) ;;
  randlist <- static (shuffle_arange N_samples) ;;

  (* combine uncertainties from nld (from 1Gen fit) and transformation *)
  (if Nat.eqb (shape1 nld) 3 then
     let N_samples_max := 100%nat in
     samples_A <- getitem "A" (lookup "A" samples) ;;
     let N_loop := Nat.min N_samples_max (length samples_A) in
     nld_samples <-
       mapM (fun i =>
               i_multi <- index randlist i ;;
               nld_tmp <- static (norm_rvs (col1 nld) (col2 nld)) ;;
               nld_tmp <- of_result (c_ Ex nld_tmp) ;;
               samples_A <- getitem "A" (lookup "A" samples) ;;
               A <- index samples_A i_multi ;;
               samples_alpha <- getitem "alpha" (lookup "alpha" samples) ;;
               alpha <- index samples_alpha i_multi ;;
               let nld_tmp := normalize (Cols2 nld_tmp) A alpha in
               ret (col1 nld_tmp))
            (seq 0 N_loop) ;;
     let median := map median (columns (length Ex) nld_samples) in
     let std := map Np.std (columns (length Ex) nld_samples) in
     nld_norm <- of_result (c_ Ex median) ;;
     nld_norm <- of_result (c_ nld_norm std) ;;
     update (set_nld_norm (Some (Cols3 nld_norm)))
   else ret tt) ;;;

  (* no uncertainties on nld provided *)
  (if Nat.eqb (shape1 nld) 2 then
     self <- get_self ;;
     A_norm <- match self_A_norm self with
               | Some a => ret a
               | None => raise (AttributeError "A_norm")
               end ;;
     alpha_norm <- match self_alpha_norm self with
                   | Some a => ret a
                   | None => raise (AttributeError "alpha_norm")
                   end ;;
     update (set_nld_norm (Some (normalize (self_nld self) A_norm alpha_norm)))
   else ret tt).

(** *** [__init__] *)

(** The object as the first assignments of [__init__] leave it. *)
Definition fresh (nld : curve) (method : string) (pnorm : PNorm)
  (nldModel : string) (pext : PExt) (pspin : PSpin num) (D0 : num)
  (fname_discretes : string) : Self :=
  mkSelf nld method pnorm nldModel pext pspin D0 fname_discretes
    None None None None None None None None.

(** The dispatch on [method], after the check of the energy unit.  The
    source compares with [is]: the object given as [method] against the
    string literals of the file. *)
Definition init_method : Method unit :=
  self <- get_self ;;
  if ext_is ext (self_method self) "2points" then
    '(nld_norm, A_norm, alpha_norm) <-
      call_model norm_2points
        [isSome (pn_nldE1 (self_pnorm self));
         isSome (pn_nldE2 (self_pnorm self))] ;;
    nld_ext <- on_pext (extrapolate (self_nldModel self)) ;;
    '(levels_smoothed, _) <- get_discretes (col0 (self_nld self)) (1 / 10) ;;
    (* TODO: FIX THIS! *)
    raise (Exception_ "Need to work on the selection of levels here")
  else if ext_is ext (self_method self) "find_norm" then
    '(popt, samples) <- find_norm ;;
    update (set_fit (fst (popt_A popt)) (fst (popt_alpha popt))
              (fst (popt_T popt)) samples) ;;;
    normalize_scanning_samples popt samples
  else
    raise (TypeError "Error: Normalization model not supported; check spelling").

(** [NormNLD.__init__], on the object [fresh ...]. *)
Definition __init__ : Method unit :=
  self <- get_self ;;
  if any_gt (col0 (self_nld self)) 1000 then
    static (emit (EvWarn "Are you sure that all input is in MeV, not keV?")) ;;;
    raise (RuntimeError "What it said^")
  else init_method.

(** [NormNLD(nld, method, pnorm, nldModel, pext, pspin, D0,
    fname_discretes)] in the world [w]: the outcome of [__init__], the
    object as it stands then, and the world. *)
Definition construct (nld : curve) (method : string) (pnorm : PNorm)
  (nldModel : string) (pext : PExt) (pspin : PSpin num) (D0 : num)
  (fname_discretes : string) (w : world num)
  : result unit * (Self * world num) :=
  __init__
    (fresh nld method pnorm nldModel pext pspin D0 fname_discretes, w).

End Driver.

End NormNLD.


(** ** Vocabulary of the properties *)

(** A finite value (neither an infinity nor nan). *)
Definition is_fin (a : num) : bool :=
  match a with
  | Fin _ => true
  | NonFin => false
  end.


(** The row of index [k] of a table, with its uncertainty if it has one. *)
Definition row (nld : curve) (k : nat) : option (R * num * option num) :=
  match nld with
  | Cols2 rows =>
      option_map (fun '(Ex, v) => (Ex, v, None)) (nth_error rows k)
  | Cols3 rows =>
      option_map (fun '(Ex, v, u) => (Ex, v, Some u)) (nth_error rows k)
  end.


(** A positive real. *)
Definition positive (a : num) : Prop :=
  match a with
  | Fin x => (0 < x)%R
  | NonFin => False
  end.

(** Strictly increasing energies. *)
Fixpoint increasing (l : list R) : Prop :=
  match l with
  | x :: ((y :: _) as l') => (x < y)%R /\ increasing l'
  | _ => True
  end.

(** [E] lies in the energy range of a table of at least two energies. *)
Definition in_range (Ex : list R) (E : R) : Prop :=
  match Ex with
  | x0 :: _ :: _ => (x0 <= E <= last Ex 0)%R
  | _ => False
  end.

(** A table all of whose densities and uncertainties are finite. *)
Definition finite_curve (nld : curve) : bool :=
  forallb is_fin (col1 nld) && forallb is_fin (col2 nld).

(** The cost of one fit window in the words of the specification: the
    squared residuals of the densities of [data] against [ref] per energy
    bin, each divided by its variance when [data] has an uncertainty
    column, summed. *)
Definition window_cost (data : curve) (ref : list num) : num :=
  match data with
  | Cols2 rows =>
      Np.sum (map2 (fun '(_, v) r => Np.square (v - r)%num) rows ref)
  | Cols3 rows =>
      Np.sum (map2 (fun '(_, v, u) r =>
                      (Np.square (v - r) / Np.square u)%num) rows ref)
  end.

(** The model densities on the energy grid of [data]. *)
Definition model_on (nldModel : nld_model) (data : curve) (T Eshift : num)
  : list num :=
  map (fun E => nldModel (Fin E) T Eshift) (col0 data).

(** The level density at the separation energy in the words of the
    specification: [(Sn, 1 / (summe * D0 * 1e-6))] with [summe] the spin
    distribution at [J_target + 1/2] when [J_target == 0] and the mean of
    its values at [J_target - 1/2] and [J_target + 1/2] otherwise. *)
Definition nld_at_Sn
  (distibution : num -> num -> option string -> list (string * num) -> num)
  (D0 : num) (pspin : PSpin num) : num * num :=
  let g := fun J => distibution (Sn pspin) J (spincutModel pspin)
                      (spincutPars pspin) in
  let summe :=
    if Np.eq0 (J_target pspin) then g (J_target pspin + Fin (1 / 2))%num
    else ((g (J_target pspin - Fin (1 / 2)) + g (J_target pspin + Fin (1 / 2)))
          / Fin 2)%num in
  (Sn pspin, (Fin 1 / (summe * D0 * Fin (1 / 1000000)))%num).

(** The spins at which the spin distribution is to be evaluated. *)
Definition spin_channels (J_target : num) : list num :=
  if Np.eq0 J_target then [(J_target + Fin (1 / 2))%num]
  else [(J_target - Fin (1 / 2))%num; (J_target + Fin (1 / 2))%num].


(** A computation all of whose runs, returning or raising, take a state
    to one that [R] relates to it. *)
Definition respects {S A : Type} (R : S -> S -> Prop) (m : St S A) : Prop :=
  forall s, R s (snd (m s)).

(** A relation between two states of the object, whatever the world. *)
Definition on_self (Q : NormNLD.Self -> NormNLD.Self -> Prop)
  (s s' : NormNLD.Self * world num) : Prop :=
  Q (fst s) (fst s').

(** The arguments of the constructor, as the object holds them, are the
    same in [self'] as in [self]; of the dict [pext], the key
    [ext_range]. *)
Definition same_inputs (self self' : NormNLD.Self) : Prop :=
  NormNLD.self_nld self' = NormNLD.self_nld self
  /\ NormNLD.self_method self' = NormNLD.self_method self
  /\ NormNLD.self_pnorm self' = NormNLD.self_pnorm self
  /\ NormNLD.self_nldModel self' = NormNLD.self_nldModel self
  /\ NormNLD.self_pspin self' = NormNLD.self_pspin self
  /\ NormNLD.self_D0 self' = NormNLD.self_D0 self
  /\ NormNLD.self_fname_discretes self'
     = NormNLD.self_fname_discretes self
  /\ px_ext_range (NormNLD.self_pext self')
     = px_ext_range (NormNLD.self_pext self).

(** [self'] is [self] but for the attribute [nld_norm]. *)
Definition only_nld_norm (self self' : NormNLD.Self) : Prop :=
  exists v, self' = NormNLD.set_nld_norm v self.

(** A method all of whose returning runs draw [n] times from the random
    number generator. *)
Definition draws_on_return {A : Type} (n : nat) (m : NormNLD.Method A)
  : Prop :=
  forall s a s', m s = (Ok a, s') -> draws (snd s') = (draws (snd s) + n)%nat.

(** The attribute [nld_norm] is the same in [self'] as in [self]. *)
Definition same_nld_norm (self self' : NormNLD.Self) : Prop :=
  NormNLD.self_nld_norm self' = NormNLD.self_nld_norm self.
(* ================================================================== *)
(** * Part II: properties                                              *)
(* ================================================================== *)

Unset Implicit Arguments.
Local Open Scope R_scope.

(** ** Arithmetic of the exact model *)

Lemma divide_Fin (x y : R) :
  y <> 0 -> Np.divide (Fin x) (Fin y) = Fin (x / y).
Proof.
  intros Hy. unfold Np.divide. destruct (Req_dec_T y 0); [contradiction | reflexivity].
Qed.

Lemma log_Fin (x : R) : 0 < x -> Np.log (Fin x) = Fin (ln x).
Proof.
  intros Hx. unfold Np.log. destruct (Rlt_dec 0 x); [reflexivity | contradiction].
Qed.

Lemma log_nonpositive (x : R) : x <= 0 -> Np.log (Fin x) = NonFin.
Proof.
  intros Hx. unfold Np.log. destruct (Rlt_dec 0 x); [lra | reflexivity].
Qed.

Lemma sqrt_Fin (x : R) : 0 <= x -> Np.sqrt (Fin x) = Fin (sqrt x).
Proof.
  intros Hx. unfold Np.sqrt. destruct (Rle_dec 0 x); [reflexivity | contradiction].
Qed.

Lemma eq0_Fin_true (x : R) : x = 0 -> Np.eq0 (Fin x) = true.
Proof.
  intros ->. simpl. destruct (Req_dec_T 0 0); [reflexivity | congruence].
Qed.

Lemma exp_neq_0 (x : R) : exp x <> 0.
Proof. pose proof (exp_pos x). lra. Qed.

#[local] Hint Resolve exp_neq_0 : core.

Lemma half_times (x : num) : (Fin (1 / 2) * x)%num = (x / Fin 2)%num.
Proof.
  destruct x as [x|]; [|reflexivity].
  rewrite divide_Fin by lra. cbn. f_equal. field.
Qed.

Lemma is_fin_inv (a : num) : is_fin a = true -> exists x, a = Fin x.
Proof. destruct a as [x|]; [eauto | discriminate]. Qed.

Lemma positive_inv (a : num) : positive a -> exists x, a = Fin x /\ 0 < x.
Proof. destruct a as [x|]; cbn; [eauto | contradiction]. Qed.

(** ** Lists and arrays *)

Lemma map2_length {A B C : Type} (f : A -> B -> C) (a : list A) (b : list B) :
  length (map2 f a b) = Nat.min (length a) (length b).
Proof.
  revert b. induction a as [|x a IH]; intros [|y b]; cbn; auto.
Qed.



Lemma map_fst_combine {A B : Type} (a : list A) (b : list B) :
  length a = length b -> map fst (combine a b) = a.
Proof.
  revert b. induction a as [|x a IH]; intros [|y b] H; cbn in *;
    try reflexivity; try discriminate.
  f_equal. apply IH. lia.
Qed.

Lemma map_snd_combine {A B : Type} (a : list A) (b : list B) :
  length a = length b -> map snd (combine a b) = b.
Proof.
  revert b. induction a as [|x a IH]; intros [|y b] H; cbn in *;
    try reflexivity; try discriminate.
  f_equal. apply IH. lia.
Qed.

Lemma map_seq_const {B : Type} (f : nat -> B) (c : B) (n : nat) :
  (forall j, (j < n)%nat -> f j = c) -> map f (seq 0 n) = repeat c n.
Proof.
  intros H. transitivity (map (fun _ : nat => c) (seq 0 n)).
  - apply map_ext_in. intros j Hj. apply in_seq in Hj. apply H. lia.
  - rewrite map_const, length_seq. reflexivity.
Qed.

Lemma broadcast_same_length (f : num -> num -> num) (a b : list num) :
  length a = length b -> broadcast f a b = Ok (map2 f a b).
Proof.
  intros H. unfold broadcast. rewrite H, Nat.eqb_refl. reflexivity.
Qed.

Lemma broadcast_inplace_same_length (f : num -> num -> num) (a b : list num) :
  length a = length b -> broadcast_inplace f a b = Ok (map2 f a b).
Proof.
  intros H. unfold broadcast_inplace. rewrite H, Nat.eqb_refl. reflexivity.
Qed.

Lemma c__same_length {A B : Type} (a : list A) (b : list B) :
  length a = length b -> c_ a b = Ok (combine a b).
Proof. intros H. unfold c_. rewrite H, Nat.eqb_refl. reflexivity. Qed.



Lemma col1_length (nld : curve) : length (col1 nld) = len nld.
Proof. destruct nld; cbn; apply length_map. Qed.

Lemma col0_length (nld : curve) : length (col0 nld) = len nld.
Proof. destruct nld; cbn; apply length_map. Qed.

Lemma normalize_len (nld : curve) (A alpha : num) :
  len (NormNLD.normalize nld A alpha) = len nld.
Proof. destruct nld; cbn; apply length_map. Qed.



(** ** Runs of the monad *)

Lemma of_result_run {S A : Type} (r : result A) (w : S) :
  of_result r w = (r, w).
Proof. destruct r; reflexivity. Qed.

Lemma bind_run {S A B : Type} (m : St S A) (k : A -> St S B) (w w' : S)
  (a : A) :
  m w = (Ok a, w') -> bind m k w = k a w'.
Proof. intros H. unfold bind. rewrite H. reflexivity. Qed.


Lemma getitem_run {S A : Type} (key : string) (v : option A) (a : A) (s : S) :
  v = Some a -> getitem key v s = (Ok a, s).
Proof. intros ->. reflexivity. Qed.

Lemma index_run {S A : Type} (a : list A) (i : nat) (x : A) (s : S) :
  nth_error a i = Some x -> index a i s = (Ok x, s).
Proof. intros H. unfold index. rewrite H. reflexivity. Qed.

(** A loop whose every round returns [b] and changes the state by [step]. *)
Lemma mapM_const {X A B : Type} (f : A -> St X B) (l : list A) (b : B)
  (step : X -> X) (s : X) :
  (forall a s', In a l -> f a s' = (Ok b, step s')) ->
  mapM f l s = (Ok (repeat b (length l)), Nat.iter (length l) step s).
Proof.
  revert s. induction l as [|a l IH]; intros s Hf; [reflexivity|].
  cbn [mapM length repeat].
  erewrite bind_run by (apply Hf; left; reflexivity).
  erewrite bind_run.
  2:{ apply IH. intros a' s' Ha'. apply Hf. right. exact Ha'. }
  unfold ret. rewrite Nat.iter_succ_r. reflexivity.
Qed.

Lemma static_run {A : Type} (m : M num A) (self : NormNLD.Self)
  (w w' : world num) (r : result A) :
  m w = (r, w') -> NormNLD.static m (self, w) = (r, (self, w')).
Proof. intros H. cbn. rewrite H. reflexivity. Qed.

Lemma get_self_run {A : Type} (k : NormNLD.Self -> NormNLD.Method A)
  (self : NormNLD.Self) (w : world num) :
  bind NormNLD.get_self k (self, w) = k self (self, w).
Proof. reflexivity. Qed.

Lemma update_run (f : NormNLD.Self -> NormNLD.Self) (self : NormNLD.Self)
  (w : world num) :
  NormNLD.update f (self, w) = (Ok tt, (f self, w)).
Proof. reflexivity. Qed.


Lemma get_discretes_run (ext : Externals) (Emids : list R) (resolution : R)
  (self : NormNLD.Self) (w : world num) :
  NormNLD.get_discretes ext Emids resolution (self, w)
  = (Ok (ext_get_discretes ext Emids (NormNLD.self_fname_discretes self)
           resolution),
     (self,
      mkWorld
        (trace w ++ [EvGetDiscretes Emids (NormNLD.self_fname_discretes self)
                       resolution])
        (draws w))).
Proof. reflexivity. Qed.

(** One step of a run: the first computation of a [bind] returns. *)
Ltac run_step :=
  first
    [ rewrite get_self_run
    | erewrite bind_run
        by first
             [ apply getitem_run; eassumption
             | rewrite of_result_run; f_equal; eassumption
             | apply get_discretes_run
             | reflexivity ] ].

(** ** C1: level density at the separation energy *)

(** The run of [nldSn_from_D0] in the exact model. *)
Lemma nldSn_from_D0_run
  (distibution : num -> num -> option string -> list (string * num) -> num)
  (D0 : num) (pspin : PSpin num) (w : world num) :
  NormNLD.nldSn_from_D0 distibution D0 (Sn pspin) (J_target pspin)
    (spincutModel pspin) (spincutPars pspin) w
  = (Ok (nld_at_Sn distibution D0 pspin),
     mkWorld
       (trace w ++ map (fun J => EvSpinFunctions (Sn pspin) J
                                   (spincutModel pspin) (spincutPars pspin))
                       (spin_channels (J_target pspin)))
       (draws w)).
Proof.
  unfold NormNLD.nldSn_from_D0, NormNLD.SpinFunctions, bind, emit, ret,
    of_result, nld_at_Sn, spin_channels.
  cbn [py_eq0 py_add py_sub py_mul py_truediv py_half py_one py_micro
       num_PyNumber].
  destruct (Np.eq0 (J_target pspin)); cbn [trace draws map].
  - reflexivity.
  - rewrite half_times. rewrite <- app_assoc. reflexivity.
Qed.

(** The run of [nldSn_from_D0] for every kind of Python number: the spin
    distribution is called at the channels of [J_target], and the outcome
    is that of the division. *)
Lemma nldSn_from_D0_outcome {F : Type} {PN : PyNumber F}
  (distibution : F -> F -> option string -> list (string * F) -> F)
  (D0 Sn J_target : F) (model : option string) (pars : list (string * F))
  (w : world F) :
  let g := fun J => distibution Sn J model pars in
  let J_lo := py_sub J_target py_half in
  let J_hi := py_add J_target py_half in
  let summe :=
    if py_eq0 J_target then g J_hi
    else py_mul py_half (py_add (g J_lo) (g J_hi)) in
  let queried := if py_eq0 J_target then [J_hi] else [J_lo; J_hi] in
  let w' :=
    mkWorld
      (trace w ++ map (fun J => EvSpinFunctions Sn J model pars) queried)
      (draws w) in
  NormNLD.nldSn_from_D0 distibution D0 Sn J_target model pars w
  = match py_truediv py_one (py_mul (py_mul summe D0) py_micro) with
    | Ok nld => (Ok (Sn, nld), w')
    | Raise e => (Raise e, w')
    end.
Proof.
  intros g J_lo J_hi summe queried w'.
  subst g J_lo J_hi summe queried w'.
  unfold NormNLD.nldSn_from_D0, NormNLD.SpinFunctions, bind, emit, ret,
    of_result, raise.
  destruct (py_eq0 J_target); cbn [trace draws map];
    rewrite <- ?app_assoc;
    match goal with
    | |- context [py_truediv ?a ?b] => destruct (py_truediv a b)
    end; reflexivity.
Qed.

(** C1, amended.  On binary64 values, for every [D0], [Sn], [J_target]
    and spin distribution, [nldSn_from_D0] calls the spin distribution at
    [J_target + 1/2] alone when [J_target == 0], and at [J_target - 1/2]
    then [J_target + 1/2], and nowhere else, otherwise; [summe] is
    [g (J_target + 1/2)] in the first case and
    [1/2 * (g (J_target - 1/2) + g (J_target + 1/2))] in the second, [g J]
    being the spin distribution at [Ex = Sn] and spin [J].  It returns
    [(Sn, 1 / (summe * D0 * 1e-6))], except when the product
    [summe * D0 * 1e-6] is zero and neither [summe] nor [D0] is a numpy
    scalar: the division of Python floats raises [ZeroDivisionError]
    then. *)
Theorem nldSn_from_D0_spec
  (distibution :
     pyfloat -> pyfloat -> option string -> list (string * pyfloat) -> pyfloat)
  (D0 Sn J_target : pyfloat) (model : option string)
  (pars : list (string * pyfloat)) (w : world pyfloat) :
  let g := fun J => distibution Sn J model pars in
  let J_lo := py_sub J_target py_half in
  let J_hi := py_add J_target py_half in
  let summe :=
    if py_eq0 J_target then g J_hi
    else py_mul py_half (py_add (g J_lo) (g J_hi)) in
  let queried := if py_eq0 J_target then [J_hi] else [J_lo; J_hi] in
  let w' :=
    mkWorld
      (trace w ++ map (fun J => EvSpinFunctions Sn J model pars) queried)
      (draws w) in
  let product := py_mul (py_mul summe D0) py_micro in
  let numpy := Binary64.is_np summe || Binary64.is_np D0 in
  let density :=
    SFdiv Binary64.prec Binary64.emax Binary64.one (Binary64.value product) in
  NormNLD.nldSn_from_D0 distibution D0 Sn J_target model pars w
  = if numpy then (Ok (Sn, NpFloat64 density), w')
    else if Binary64.is_zero (Binary64.value product)
         then (Raise ZeroDivisionError, w')
         else (Ok (Sn, PyFloat density), w').
Proof.
  intros g J_lo J_hi summe queried w' product numpy density.
  rewrite nldSn_from_D0_outcome.
  subst product numpy density w' queried summe J_hi J_lo g. cbv beta zeta.
  match goal with
  | |- context [py_mul (py_mul ?s D0) py_micro] => generalize s
  end.
  intros summe.
  generalize (mkWorld
                (trace w
                 ++ map (fun J => EvSpinFunctions Sn J model pars)
                      (if py_eq0 J_target
                       then [py_add J_target py_half]
                       else [py_sub J_target py_half;
                             py_add J_target py_half]))
                (draws w)).
  intros w'.
  cbn [py_truediv py_one py_mul py_micro pyfloat_PyNumber].
  unfold Binary64.truediv, Binary64.binop, Binary64.retag.
  destruct summe as [f|f], D0 as [d|d];
    cbn [Binary64.is_np Binary64.value orb]; try reflexivity.
  destruct (Binary64.is_zero _); reflexivity.
Qed.

(** C1, on the code.  With Python floats, a spin distribution that is 1
    and the resonance spacing [D0 = 0.0], the product [summe * D0 * 1e-6]
    is zero and [nldSn_from_D0] returns no pair: it raises
    [ZeroDivisionError], after the call of the spin distribution. *)
Lemma nldSn_from_D0_zero_D0_raises :
  NormNLD.nldSn_from_D0
    (fun _ _ _ _ => PyFloat Binary64.one)
    (PyFloat Binary64.zero) (PyFloat Binary64.one) (PyFloat Binary64.zero)
    None [] w0
  = (Raise ZeroDivisionError,
     mkWorld
       [EvSpinFunctions (PyFloat Binary64.one) (PyFloat Binary64.half)
          None []]
       0).
Proof. vm_compute. reflexivity. Qed.

(** ** C2: the chi-square cost *)










(** On equal lengths the code's array expressions compute the window cost. *)
Lemma window_code_cols2 (rows : list (R * num)) (ref : list num) :
  map Np.square (map2 Np.subtract (map snd rows) ref)
  = map2 (fun '(_, v) r => Np.square (v - r)%num) rows ref.
Proof.
  revert ref. induction rows as [|[E v] rows IH]; intros [|r ref];
    cbn [map map2 snd]; try reflexivity.
  f_equal. apply IH.
Qed.

Lemma window_code_cols3 (rows : list (R * num * num)) (ref : list num) :
  map2 Np.divide
    (map Np.square (map2 Np.subtract (map (fun r => snd (fst r)) rows) ref))
    (map Np.square (map snd rows))
  = map2 (fun '(_, v, u) r => (Np.square (v - r) / Np.square u)%num) rows ref.
Proof.
  revert ref. induction rows as [|[[E v] u] rows IH]; intros [|r ref];
    cbn [map map2 snd fst]; try reflexivity.
  f_equal. apply IH.
Qed.

Lemma window_code (data : curve) (ref : list num) :
  length (col1 data) = length ref ->
  exists chi2a chi2b,
    broadcast Np.subtract (col1 data) ref = Ok chi2a
    /\ (if Nat.eqb (shape1 data) 3
        then broadcast_inplace Np.divide (map Np.square chi2a)
               (map Np.square (col2 data))
        else Ok (map Np.square chi2a)) = Ok chi2b
    /\ Np.sum chi2b = window_cost data ref.
Proof.
  intros Hlen. exists (map2 Np.subtract (col1 data) ref).
  rewrite (broadcast_same_length _ _ _ Hlen).
  destruct data as [rows|rows]; cbn [shape1 Nat.eqb col1 col2 window_cost] in *.
  - eexists. split; [reflexivity|]. split; [reflexivity|].
    rewrite window_code_cols2. reflexivity.
  - eexists. split; [reflexivity|].
    rewrite broadcast_inplace_same_length.
    + split; [reflexivity|]. rewrite window_code_cols3. reflexivity.
    + rewrite !length_map, map2_length, length_map in *.
      rewrite <- Hlen. apply Nat.min_id.
Qed.

Lemma weights_run {S : Type} (c : bool) (b : result (list num))
  (l : list num) (w : S) :
  (if c then of_result b else ret l) w = ((if c then b else Ok l), w).
Proof. destruct c; [apply of_result_run | reflexivity]. Qed.


(** With [data_low] and [levels_smoothed] of one length, [chi2_disc_ext]
    returns the sum of the two window costs. *)
Lemma chi2_disc_ext_run
  (distibution : num -> num -> option string -> list (string * num) -> num)
  (A alpha T D0 : num) (rest : list num) (nldModel : nld_model)
  (data_low data_high : curve) (levels_smoothed : list num)
  (pspin : PSpin num) (returnPars : bool) (w : world num) :
  let low := NormNLD.normalize data_low A alpha in
  let high := NormNLD.normalize data_high A alpha in
  let nld_Sn := nld_at_Sn distibution D0 pspin in
  let Eshift := NormNLD.EshiftFromT T nld_Sn in
  let chi2 := (window_cost low levels_smoothed
               + window_cost high (model_on nldModel high T Eshift))%num in
  len data_low = length levels_smoothed ->
  fst (NormNLD.chi2_disc_ext distibution (A :: alpha :: T :: D0 :: rest)
         nldModel data_low data_high levels_smoothed pspin returnPars w)
  = Ok (if returnPars then NormNLD.Chi2Pars chi2 nld_Sn Eshift
        else NormNLD.Chi2 chi2).
Proof.
  intros low high nld_Sn Eshift chi2 Hlen.
  destruct (window_code low levels_smoothed) as (a1 & b1 & Ea1 & Eb1 & Es1).
  { subst low. rewrite col1_length, normalize_len. exact Hlen. }
  destruct (window_code high (model_on nldModel high T Eshift))
    as (a2 & b2 & Ea2 & Eb2 & Es2).
  { unfold model_on. rewrite length_map, col1_length, col0_length. reflexivity. }
  unfold NormNLD.chi2_disc_ext. fold low. fold high.
  erewrite bind_run by (rewrite of_result_run, Ea1; reflexivity).
  erewrite bind_run by (rewrite weights_run, Eb1; reflexivity).
  erewrite bind_run by (apply nldSn_from_D0_run).
  fold nld_Sn. fold Eshift. fold (model_on nldModel high T Eshift).
  erewrite bind_run by (rewrite of_result_run, Ea2; reflexivity).
  erewrite bind_run by (rewrite weights_run, Eb2; reflexivity).
  subst chi2. rewrite Es1, Es2. destruct returnPars; reflexivity.
Qed.




(** ** C3: normalization to two points *)

(** Points with finite ordinates. *)
Lemma lin_interp_fin (pts : list (R * R)) (x : R) :
  increasing (map fst pts) ->
  (2 <= length pts)%nat ->
  x <= last (map fst pts) 0 ->
  exists y, NormNLD.lin_interp (map (fun p => (fst p, Fin (snd p))) pts) x = Some (Fin y).
Proof.
  induction pts as [|[x0 y0] pts IH]; intros Hinc Hlen Hx; [cbn in Hlen; lia|].
  destruct pts as [|[x1 y1] pts]; [cbn in Hlen; lia|].
  cbn [map fst snd NormNLD.lin_interp] in *.
  destruct Hinc as [H01 Hinc].
  destruct (Rle_dec x x1) as [Hle|Hgt].
  - unfold NormNLD.line. cbn [Np.subtract Np.lift2].
    rewrite divide_Fin by lra. cbn. eauto.
  - destruct pts as [|p2 pts].
    + cbn in Hx. contradiction.
    + apply IH; [exact Hinc | cbn; lia | exact Hx].
Qed.

(** Adding [c + a * x] to the ordinates adds it to the interpolant. *)
Lemma lin_interp_affine (pts : list (R * R)) (x y c a : R) :
  increasing (map fst pts) ->
  NormNLD.lin_interp (map (fun p => (fst p, Fin (snd p))) pts) x = Some (Fin y) ->
  NormNLD.lin_interp
    (map (fun p => (fst p, Fin (snd p + c + a * fst p))) pts) x
  = Some (Fin (y + c + a * x)).
Proof.
  induction pts as [|[x0 y0] pts IH]; intros Hinc H; [discriminate|].
  destruct pts as [|[x1 y1] pts]; [discriminate|].
  cbn [map fst snd NormNLD.lin_interp] in *.
  destruct Hinc as [H01 Hinc].
  destruct (Rle_dec x x1) as [Hle|Hgt].
  - unfold NormNLD.line in *. cbn [Np.subtract Np.lift2] in *.
    rewrite divide_Fin in * by lra. cbn in *.
    injection H as <-. do 2 f_equal. field. lra.
  - apply IH; assumption.
Qed.

Lemma positive_list (l : list num) :
  Forall positive l -> exists vs, l = map Fin vs /\ Forall (fun v => 0 < v) vs.
Proof.
  induction 1 as [|a l Ha Hl (vs & -> & Hvs)].
  - exists []. split; [reflexivity | constructor].
  - destruct (positive_inv a Ha) as (x & -> & Hx).
    exists (x :: vs). split; [reflexivity | constructor; assumption].
Qed.

Lemma log_positive_list (Ex vs : list R) :
  Forall (fun v => 0 < v) vs ->
  combine Ex (map Np.log (map Fin vs))
  = map (fun p => (fst p, Fin (snd p))) (combine Ex (map ln vs)).
Proof.
  intros H. revert Ex. induction H as [|v vs Hv Hvs IH]; intros [|E Ex];
    try reflexivity.
  cbn [map combine fst snd]. rewrite log_Fin by exact Hv. f_equal. apply IH.
Qed.

(** The log-linear interpolant of a table of positive densities is defined
    and positive on the energy range. *)
Lemma log_interp1d_positive (Ex vs : list R) (x : R) :
  length Ex = length vs ->
  Forall (fun v => 0 < v) vs ->
  increasing Ex ->
  in_range Ex x ->
  exists y,
    NormNLD.lin_interp (map (fun p => (fst p, Fin (snd p))) (combine Ex (map ln vs))) x
    = Some (Fin y)
    /\ NormNLD.log_interp1d Ex (map Fin vs) x = Ok (Fin (exp y)).
Proof.
  intros Hlen Hvs Hinc Hr.
  assert (Hfst : map fst (combine Ex (map ln vs)) = Ex)
    by (apply map_fst_combine; rewrite length_map; exact Hlen).
  destruct (lin_interp_fin (combine Ex (map ln vs)) x) as [y Hy].
  - rewrite Hfst. exact Hinc.
  - rewrite length_combine, length_map, <- Hlen, Nat.min_id.
    destruct Ex as [|x0 [|x1 Ex]]; cbn in Hr; try contradiction. cbn. lia.
  - rewrite Hfst. destruct Ex as [|x0 [|x1 Ex]]; cbn in Hr; try contradiction.
    apply Hr.
  - exists y. split; [exact Hy|].
    unfold NormNLD.log_interp1d.
    destruct Ex as [|x0 [|x1 Ex]]; try (cbn in Hr; contradiction).
    destruct (Rlt_dec x x0) as [Hlt|_]; [cbn in Hr; lra|].
    rewrite (log_positive_list _ _ Hvs), Hy. reflexivity.
Qed.

(** The transformed densities, on reals. *)
Lemma transformed_values (vs Ex : list R) (a al : R) :
  map2 (fun nld_i Ex_i => (nld_i * Fin a * Np.exp (Fin al * Fin Ex_i))%num)
       (map Fin vs) Ex
  = map Fin (map2 (fun v E => v * a * exp (al * E)) vs Ex).
Proof.
  revert Ex. induction vs as [|v vs IH]; intros [|E Ex]; try reflexivity.
  cbn [map map2]. rewrite IH. reflexivity.
Qed.

Lemma transformed_positive (vs Ex : list R) (a al : R) :
  0 < a ->
  Forall (fun v => 0 < v) vs ->
  Forall (fun v => 0 < v) (map2 (fun v E => v * a * exp (al * E)) vs Ex).
Proof.
  intros Ha H. revert Ex. induction H as [|v vs Hv Hvs IH]; intros [|E Ex];
    cbn [map2]; constructor; [|apply IH].
  pose proof (exp_pos (al * E)).
  apply Rmult_lt_0_compat; [apply Rmult_lt_0_compat|]; assumption.
Qed.

Lemma transformed_logs (vs Ex : list R) (a al : R) :
  0 < a ->
  Forall (fun v => 0 < v) vs ->
  combine Ex (map ln (map2 (fun v E => v * a * exp (al * E)) vs Ex))
  = map (fun p => (fst p, snd p + ln a + al * fst p))
        (combine Ex (map ln vs)).
Proof.
  intros Ha H. revert Ex. induction H as [|v vs Hv Hvs IH]; intros [|E Ex];
    try reflexivity.
  cbn [map2 map combine fst snd]. rewrite IH. do 2 f_equal.
  pose proof (exp_pos (al * E)).
  rewrite ln_mult, ln_mult, ln_exp by
    (try apply Rmult_lt_0_compat; assumption).
  reflexivity.
Qed.

(** The log-linear interpolant of the transformed table is the transformed
    interpolant. *)
Lemma log_interp1d_transformed (Ex vs : list R) (x y a al : R) :
  length Ex = length vs ->
  Forall (fun v => 0 < v) vs ->
  increasing Ex ->
  in_range Ex x ->
  0 < a ->
  NormNLD.lin_interp
    (map (fun p => (fst p, Fin (snd p))) (combine Ex (map ln vs))) x
  = Some (Fin y) ->
  NormNLD.log_interp1d Ex
    (map Fin (map2 (fun v E => v * a * exp (al * E)) vs Ex)) x
  = Ok (Fin (exp y * a * exp (al * x))).
Proof.
  intros Hlen Hvs Hinc Hr Ha Hy.
  assert (Hfst : map fst (combine Ex (map ln vs)) = Ex)
    by (apply map_fst_combine; rewrite length_map; exact Hlen).
  unfold NormNLD.log_interp1d.
  destruct Ex as [|x0 [|x1 Ex']] eqn:HEx; try (cbn in Hr; contradiction).
  rewrite <- HEx in *.
  destruct (Rlt_dec x x0) as [Hlt|_].
  { rewrite HEx in Hr. cbn in Hr. lra. }
  rewrite (log_positive_list _ _ (transformed_positive vs Ex a al Ha Hvs)).
  rewrite (transformed_logs vs Ex a al Ha Hvs), map_map.
  cbn [fst snd].
  rewrite (lin_interp_affine _ x y (ln a) al); [|rewrite Hfst; exact Hinc | exact Hy].
  cbn [Np.exp Np.lift1]. do 2 f_equal.
  rewrite !exp_plus, exp_ln by exact Ha. reflexivity.
Qed.

Lemma anchor_E2 (v2 f2 al E2 : R) :
  0 < f2 -> f2 * (v2 / f2 * exp (- al * E2)) * exp (al * E2) = v2.
Proof.
  intros Hf. replace (- al * E2) with (- (al * E2)) by ring.
  rewrite exp_Ropp. field. split; [apply exp_neq_0 | lra].
Qed.

Lemma anchor_E1 (v1 v2 f1 f2 E1 E2 : R) :
  0 < v1 -> 0 < v2 -> 0 < f1 -> 0 < f2 -> E1 <> E2 ->
  let al := ln ((v2 * f1) / (v1 * f2)) / (E2 - E1) in
  f1 * (v2 / f2 * exp (- al * E2)) * exp (al * E1) = v1.
Proof.
  intros Hv1 Hv2 Hf1 Hf2 HE al.
  assert (Hq : 0 < (v2 * f1) / (v1 * f2)).
  { apply Rdiv_lt_0_compat; apply Rmult_lt_0_compat; assumption. }
  replace (f1 * (v2 / f2 * exp (- al * E2)) * exp (al * E1))
    with (f1 * v2 / f2 * (exp (- al * E2) * exp (al * E1))) by (field; lra).
  rewrite <- exp_plus.
  replace (- al * E2 + al * E1) with (- ln ((v2 * f1) / (v1 * f2)))
    by (subst al; field; lra).
  rewrite exp_Ropp, exp_ln by exact Hq. field. repeat split; lra.
Qed.

(** The run of [norm_2points] when both anchors are in range. *)
Lemma norm_2points_run (self : NormNLD.Self) (w : world num) (E1 E2 : R) (nldE1 nldE2 fE1 fE2 : num) :
  let Ex := col0 (NormNLD.self_nld self) in
  let nld := col1 (NormNLD.self_nld self) in
  let alpha := (Np.log ((nldE2 * fE1) / (nldE1 * fE2)) / Fin (E2 - E1))%num in
  let A := (nldE2 / fE2 * Np.exp (- alpha * Fin E2))%num in
  pn_nldE1 (NormNLD.self_pnorm self) = Some (E1, nldE1) ->
  pn_nldE2 (NormNLD.self_pnorm self) = Some (E2, nldE2) ->
  NormNLD.log_interp1d Ex nld E1 = Ok fE1 ->
  NormNLD.log_interp1d Ex nld E2 = Ok fE2 ->
  fst (NormNLD.norm_2points (self, w))
  = Ok (map2 (fun nld_i Ex_i => (nld_i * A * Np.exp (alpha * Fin Ex_i))%num)
          nld Ex,
        A, alpha).
Proof.
  intros Ex nld alpha A H1 H2 F1 F2. subst Ex nld alpha A.
  unfold NormNLD.norm_2points. rewrite get_self_run.
  erewrite bind_run by (apply getitem_run; exact H1). cbv beta iota.
  erewrite bind_run by (apply getitem_run; exact H2). cbv beta iota.
  erewrite bind_run by (rewrite of_result_run; f_equal; exact F1).
  erewrite bind_run by (rewrite of_result_run; f_equal; exact F2).
  erewrite bind_run by (rewrite of_result_run; f_equal; exact F2).
  erewrite bind_run by reflexivity.
  erewrite bind_run by reflexivity.
  reflexivity.
Qed.

(** C3, amended.  For a table of positive densities on strictly increasing
    energies and two anchors [(E1, v1)], [(E2, v2)] with [E1 <> E2] inside
    its energy range and with positive densities [v1], [v2],
    [norm_2points] returns [alpha = ln ((v2 * f E1) / (v1 * f E2)) / (E2 - E1)]
    and [A = v2 / f E2 * exp (- alpha * E2)], [f] being the log-linear
    interpolant of the table, and in exact real arithmetic (the formulas
    of the program without rounding, overflow or underflow) the log-linear
    interpolant of the normalized densities is [v1] at [E1] and [v2] at
    [E2]; on binary64 values the equality can fail by rounding. *)
Theorem norm_2points_anchors (self : NormNLD.Self) (w : world num)
  (E1 v1 E2 v2 : R) :
  let Ex := col0 (NormNLD.self_nld self) in
  let nld := col1 (NormNLD.self_nld self) in
  Forall positive nld ->
  increasing Ex ->
  pn_nldE1 (NormNLD.self_pnorm self) = Some (E1, Fin v1) ->
  pn_nldE2 (NormNLD.self_pnorm self) = Some (E2, Fin v2) ->
  E1 <> E2 ->
  in_range Ex E1 ->
  in_range Ex E2 ->
  0 < v1 ->
  0 < v2 ->
  exists f1 f2 nld_norm,
    NormNLD.log_interp1d Ex nld E1 = Ok (Fin f1)
    /\ NormNLD.log_interp1d Ex nld E2 = Ok (Fin f2)
    /\ fst (NormNLD.norm_2points (self, w))
       = Ok (nld_norm,
             Fin (v2 / f2
                  * exp (- (ln ((v2 * f1) / (v1 * f2)) / (E2 - E1)) * E2)),
             Fin (ln ((v2 * f1) / (v1 * f2)) / (E2 - E1)))
    /\ NormNLD.log_interp1d Ex nld_norm E1 = Ok (Fin v1)
    /\ NormNLD.log_interp1d Ex nld_norm E2 = Ok (Fin v2).
Proof.
  intros Ex nld Hpos Hinc H1 H2 HE Hr1 Hr2 Hv1 Hv2.
  destruct (positive_list nld Hpos) as (vs & Hvs & Hvpos).
  assert (Hlen : length Ex = length vs).
  { apply (f_equal (@length num)) in Hvs. rewrite length_map in Hvs.
    rewrite <- Hvs. subst Ex nld. rewrite col0_length, col1_length.
    reflexivity. }
  destruct (log_interp1d_positive Ex vs E1 Hlen Hvpos Hinc Hr1)
    as (y1 & Hy1 & F1).
  destruct (log_interp1d_positive Ex vs E2 Hlen Hvpos Hinc Hr2)
    as (y2 & Hy2 & F2).
  rewrite <- Hvs in F1, F2.
  set (f1 := exp y1) in *. set (f2 := exp y2) in *.
  assert (Hf1 : 0 < f1) by apply exp_pos.
  assert (Hf2 : 0 < f2) by apply exp_pos.
  set (al := ln ((v2 * f1) / (v1 * f2)) / (E2 - E1)).
  set (a := v2 / f2 * exp (- al * E2)).
  assert (Hq : 0 < (v2 * f1) / (v1 * f2)).
  { apply Rdiv_lt_0_compat; apply Rmult_lt_0_compat; assumption. }
  assert (Halpha : (Np.log ((Fin v2 * Fin f1) / (Fin v1 * Fin f2))
                    / Fin (E2 - E1))%num = Fin al).
  { cbn [Np.multiply Np.lift2].
    rewrite divide_Fin by (apply Rmult_integral_contrapositive_currified; lra).
    rewrite log_Fin by exact Hq. rewrite divide_Fin by lra. reflexivity. }
  assert (HA : (Fin v2 / Fin f2 * Np.exp (- Fin al * Fin E2))%num = Fin a).
  { rewrite divide_Fin by lra. reflexivity. }
  assert (Ha : 0 < a).
  { subst a. apply Rmult_lt_0_compat; [|apply exp_pos].
    apply Rdiv_lt_0_compat; assumption. }
  exists f1, f2.
  exists (map Fin (map2 (fun v E => v * a * exp (al * E)) vs Ex)).
  split; [exact F1|]. split; [exact F2|]. split.
  - rewrite (norm_2points_run self w E1 E2 (Fin v1) (Fin v2) (Fin f1)
               (Fin f2) H1 H2 F1 F2).
    fold Ex. fold nld. rewrite Halpha, HA, Hvs, transformed_values.
    reflexivity.
  - split.
    + rewrite (log_interp1d_transformed Ex vs E1 y1 a al Hlen Hvpos Hinc Hr1
                 Ha Hy1).
      fold f1. do 2 f_equal. subst a al.
      apply anchor_E1; assumption.
    + rewrite (log_interp1d_transformed Ex vs E2 y2 a al Hlen Hvpos Hinc Hr2
                 Ha Hy2).
      fold f2. do 2 f_equal. subst a. apply anchor_E2. exact Hf2.
Qed.

Lemma norm_2points_anchors_witness :
  let self :=
    NormNLD.fresh (Cols2 [(0, Fin 1); (1, Fin 2)]) "2points"
      (mkPNorm (Some (0, Fin 3)) (Some (1, Fin 5)) None None None None None)
      "CT" (mkPExt (Some (1, 8)) None None None None)
      (mkPSpin (Fin 8) (Fin 0) None []) (Fin 1) "levels.txt" in
  exists nld_norm A alpha,
    fst (NormNLD.norm_2points (self, w0)) = Ok (nld_norm, A, alpha)
    /\ NormNLD.log_interp1d [0; 1] nld_norm 0 = Ok (Fin 3)
    /\ NormNLD.log_interp1d [0; 1] nld_norm 1 = Ok (Fin 5).
Proof.
  intros self.
  destruct (norm_2points_anchors self w0 0 3 1 5)
    as (f1 & f2 & nld_norm & _ & _ & Hrun & HE1 & HE2);
    try reflexivity; try lra.
  - repeat constructor; cbn; lra.
  - cbn. split; [lra | exact I].
  - cbn. lra.
  - cbn. lra.
  - exists nld_norm. do 2 eexists. split; [exact Hrun|].
    split; [exact HE1 | exact HE2].
Defined.

(** C3, on the code.  With the anchor density [v1 = -1] the argument of
    the logarithm is negative: [alpha], [A] and the normalized densities
    are nan, and so is their interpolant at [E1]. *)
Lemma norm_2points_negative_anchor :
  let self :=
    NormNLD.fresh (Cols2 [(0, Fin 1); (1, Fin 1)]) "2points"
      (mkPNorm (Some (0, Fin (-1))) (Some (1, Fin 1)) None None None None None)
      "CT" (mkPExt (Some (1, 8)) None None None None)
      (mkPSpin (Fin 8) (Fin 0) None []) (Fin 1) "levels.txt" in
  fst (NormNLD.norm_2points (self, w0)) = Ok ([NonFin; NonFin], NonFin, NonFin)
  /\ NormNLD.log_interp1d [0; 1] [NonFin; NonFin] 0 = Ok NonFin.
Proof.
  intros self. split.
  - assert (Hpos : Forall (fun v => 0 < v) [1; 1]) by (repeat constructor; lra).
    destruct (log_interp1d_positive [0; 1] [1; 1] 0 eq_refl Hpos)
      as (y1 & _ & F1); [cbn; split; [lra | exact I] | cbn; lra |].
    destruct (log_interp1d_positive [0; 1] [1; 1] 1 eq_refl Hpos)
      as (y2 & _ & F2); [cbn; split; [lra | exact I] | cbn; lra |].
    rewrite (norm_2points_run self w0 0 1 (Fin (-1)) (Fin 1) (Fin (exp y1))
               (Fin (exp y2)) eq_refl eq_refl F1 F2).
    pose proof (exp_pos y1) as Hf1. pose proof (exp_pos y2) as Hf2.
    cbn [Np.multiply Np.lift2].
    rewrite (divide_Fin (1 * exp y1) (-1 * exp y2)) by lra.
    rewrite log_nonpositive.
    + rewrite (divide_Fin 1 (exp y2)) by lra. reflexivity.
    + apply Rlt_le. apply Ropp_lt_cancel. rewrite Ropp_0.
      replace (- (1 * exp y1 / (-1 * exp y2))) with (exp y1 / exp y2)
        by (field; lra).
      apply Rdiv_lt_0_compat; assumption.
  - unfold NormNLD.log_interp1d.
    destruct (Rlt_dec 0 0) as [H|_]; [lra|].
    cbn [map combine NormNLD.lin_interp Np.log].
    destruct (Rle_dec 0 1) as [_|H]; [reflexivity | lra].
Qed.

(** ** C4: the transformation is undone by the inverse parameters *)






(** ** C5: the energy shift inverts the constant-temperature formula *)




(** ** C6: the check of the energy unit *)

Lemma any_gt_true (a : list R) (bound : R) :
  (exists x, In x a /\ x > bound) -> any_gt a bound = true.
Proof.
  intros (x & Hin & Hx). unfold any_gt. apply existsb_exists.
  exists x. split; [assumption|].
  destruct (Rgt_dec x bound); [reflexivity | contradiction].
Qed.

Lemma any_gt_false (a : list R) (bound : R) :
  (forall x, In x a -> x <= bound) -> any_gt a bound = false.
Proof.
  intros H. unfold any_gt. induction a as [|x a IH]; [reflexivity|].
  cbn [existsb]. destruct (Rgt_dec x bound) as [Hx|Hx].
  - specialize (H x (or_introl eq_refl)). lra.
  - apply IH. intros y Hy. apply H. right. exact Hy.
Qed.

(** C6.  When some energy of the input curve is above 1000, constructing
    the object raises [RuntimeError] after the warning and before anything
    else: the trace gains the warning alone (no call to the discrete-level
    smoother, the optimizer or the sampler) and the object holds no
    normalized curve, no discrete levels and no fit.  When every energy is
    at most 1000 the check changes nothing and the construction goes on
    with the dispatch on the method. *)
Theorem construct_checks_unit (ext : Externals)
  (nld : curve) (method : string) (pnorm : PNorm) (nldModel : string)
  (pext : PExt) (pspin : PSpin num) (D0 : num) (fname_discretes : string)
  (w : world num) :
  let self0 :=
    NormNLD.fresh nld method pnorm nldModel pext pspin D0 fname_discretes in
  let run :=
    NormNLD.construct ext nld method pnorm nldModel pext pspin D0
      fname_discretes w in
  ((exists Ex, In Ex (col0 nld) /\ Ex > 1000) ->
   run = (Raise (RuntimeError "What it said^"),
          (self0,
           mkWorld
             (trace w ++ [EvWarn "Are you sure that all input is in MeV, not keV?"])
             (draws w))))
  /\ ((forall Ex, In Ex (col0 nld) -> Ex <= 1000) ->
      run = NormNLD.init_method ext (self0, w)).
Proof.
  intros self0 run. subst run.
  unfold NormNLD.construct, NormNLD.__init__. fold self0.
  rewrite get_self_run.
  replace (NormNLD.self_nld self0) with nld by reflexivity.
  split; intros H.
  - rewrite (any_gt_true _ _ H). reflexivity.
  - rewrite (any_gt_false _ _ H). reflexivity.
Qed.

Lemma construct_checks_unit_witness :
  let ext :=
    mkExternals (fun _ _ _ _ => Fin 1) (fun _ _ _ => ([], []))
      (fun _ _ => []) 
      (fun _ _ => (mkPopt (Fin 1, Fin 0) (Fin 0, Fin 0) (Fin 1, Fin 0)
                     (Fin 1, Fin 0), []))
      (fun _ n => seq 0 n) (fun _ _ => 0) in
  let pnorm := mkPNorm None None None None None None None in
  let pext := mkPExt None None None None None in
  let pspin := mkPSpin (Fin 8) (Fin 0) None [] in
  fst (NormNLD.construct ext (Cols2 [(1, Fin 2); (1500, Fin 3)]) "find_norm"
         pnorm "CT" pext pspin (Fin 1) "levels.txt" w0)
  = Raise (RuntimeError "What it said^").
Proof.
  intros ext pnorm pext pspin.
  destruct (construct_checks_unit ext (Cols2 [(1, Fin 2); (1500, Fin 3)])
              "find_norm" pnorm "CT" pext pspin (Fin 1) "levels.txt" w0)
    as [H _].
  rewrite H; [reflexivity|].
  exists 1500. split; [right; left; reflexivity | lra].
Defined.

(** ** C7: a zero spin sum *)

(** The result of [nldSn_from_D0] is that of the division, for every kind
    of Python number. *)
Lemma nldSn_from_D0_result {F : Type} {PN : PyNumber F}
  (distibution : F -> F -> option string -> list (string * F) -> F)
  (D0 Sn J_target : F) (model : option string) (pars : list (string * F))
  (w : world F) :
  let g := fun J => distibution Sn J model pars in
  let summe :=
    if py_eq0 J_target then g (py_add J_target py_half)
    else py_mul py_half
           (py_add (g (py_sub J_target py_half))
                   (g (py_add J_target py_half))) in
  fst (NormNLD.nldSn_from_D0 distibution D0 Sn J_target model pars w)
  = match py_truediv py_one (py_mul (py_mul summe D0) py_micro) with
    | Ok nld => Ok (Sn, nld)
    | Raise e => Raise e
    end.
Proof.
  intros g summe. subst g summe.
  unfold NormNLD.nldSn_from_D0, NormNLD.SpinFunctions, bind, emit, ret,
    of_result, raise.
  destruct (py_eq0 J_target); cbn [fst];
    match goal with
    | |- context [py_truediv ?a ?b] => destruct (py_truediv a b)
    end; reflexivity.
Qed.

Lemma SFeqb_zero (f : spec_float) :
  SFeqb f Binary64.zero = true -> exists s, f = S754_zero s.
Proof.
  destruct f as [s|s| |s m e]; cbn; try discriminate; eauto;
    destruct s; discriminate.
Qed.

(** C7, amended.  [nldSn_from_D0] has no guard on [summe].  When
    [summe == 0] the outcome is that of the division
    [1 / (summe * D0 * 1e-6)]: if [summe] or [D0] is a numpy [float64] the
    function returns [[Sn, nld]] with [nld] an infinity or nan; if both are
    Python floats it raises [ZeroDivisionError] when [D0] is finite and
    returns [[Sn, nan]] when [D0] is an infinity or nan. *)
Theorem nldSn_from_D0_zero_summe
  (distibution :
     pyfloat -> pyfloat -> option string -> list (string * pyfloat) -> pyfloat)
  (D0 Sn J_target : pyfloat) (model : option string)
  (pars : list (string * pyfloat)) (w : world pyfloat) :
  let g := fun J => distibution Sn J model pars in
  let summe :=
    if py_eq0 J_target then g (py_add J_target py_half)
    else py_mul py_half
           (py_add (g (py_sub J_target py_half))
                   (g (py_add J_target py_half))) in
  let r := fst (NormNLD.nldSn_from_D0 distibution D0 Sn J_target model pars w) in
  py_eq0 summe = true ->
  if Binary64.is_np summe || Binary64.is_np D0 then
    exists q, r = Ok (Sn, NpFloat64 q) /\ Binary64.is_nonfinite q = true
  else if Binary64.is_nonfinite (Binary64.value D0) then
    r = Ok (Sn, PyFloat S754_nan)
  else
    r = Raise ZeroDivisionError.
Proof.
  intros g summe r Hz. subst r g.
  rewrite nldSn_from_D0_result. cbv zeta. fold summe.
  destruct (SFeqb_zero _ Hz) as [s Hs].
  clearbody summe. clear Hz.
  destruct summe as [f|f]; cbn in Hs; subst f;
    destruct D0 as [[sd|sd| |sd md ed]|[sd|sd| |sd md ed]];
    cbn; eauto.
Qed.

Lemma nldSn_from_D0_zero_summe_witness :
  fst (NormNLD.nldSn_from_D0
         (fun _ _ _ _ => PyFloat Binary64.zero)
         (PyFloat Binary64.one) (PyFloat Binary64.one)
         (PyFloat Binary64.zero) None [] w0)
  = Raise ZeroDivisionError.
Proof.
  apply (nldSn_from_D0_zero_summe
           (fun _ _ _ _ => PyFloat Binary64.zero)
           (PyFloat Binary64.one) (PyFloat Binary64.one)
           (PyFloat Binary64.zero) None [] w0).
  reflexivity.
Defined.

(** C7, on the code.  With a numpy [float64] resonance spacing (as
    [chi2_disc_ext] passes [x[3]]) and a spin distribution that is zero,
    [nldSn_from_D0] raises nothing and returns [[Sn, inf]]. *)
Lemma nldSn_from_D0_zero_summe_returns_inf :
  let distibution :=
    fun (_ _ : pyfloat) (_ : option string) (_ : list (string * pyfloat)) =>
      NpFloat64 Binary64.zero in
  let D0 := NpFloat64 Binary64.one in
  let Sn := PyFloat Binary64.one in
  let J_target := PyFloat Binary64.zero in
  py_eq0 (distibution Sn (py_add J_target py_half) None []) = true
  /\ fst (NormNLD.nldSn_from_D0 distibution D0 Sn J_target None [] w0)
     = Ok (Sn, NpFloat64 Binary64.inf).
Proof. split; vm_compute; reflexivity. Qed.

(** ** C8: extrapolation models other than CT *)

(** [extrapolate] raises [TypeError] on a model other than CT, and changes
    nothing. *)
Lemma extrapolate_unsupported_model (model : string) (pars : PExt)
  (ext_range : R * R) (w : world num) :
  String.eqb model "CT" = false ->
  px_ext_range pars = Some ext_range ->
  NormNLD.extrapolate model (pars, w)
  = (Raise (TypeError "Error: NLD model not supported; check spelling"),
     (pars, w)).
Proof.
  intros Hm Hr. unfold NormNLD.extrapolate.
  erewrite bind_run by reflexivity.
  erewrite bind_run by (apply getitem_run; eassumption).
  rewrite Hm. reflexivity.
Qed.

(** [find_norm] on a model other than CT: the dispatch prints a message and
    goes on; reading the local [nldModel], which no branch bound, raises
    [UnboundLocalError] after the discrete levels were fetched and stored. *)
Lemma find_norm_unsupported_model (ext : Externals) (self : NormNLD.Self)
  (w : world num) (E1_low E2_low E1_high E2_high : R) (i1 i2 j1 j2 : nat)
  (discretes : list (R * num)) :
  let nld := NormNLD.self_nld self in
  let pnorm := NormNLD.self_pnorm self in
  let fname := NormNLD.self_fname_discretes self in
  String.eqb (NormNLD.self_nldModel self) "CT" = false ->
  pn_E1_low pnorm = Some E1_low ->
  pn_E2_low pnorm = Some E2_low ->
  pn_E1_high pnorm = Some E1_high ->
  pn_E2_high pnorm = Some E2_high ->
  NormNLD.nearest ext nld E1_low = Ok i1 ->
  NormNLD.nearest ext nld E2_low = Ok i2 ->
  NormNLD.nearest ext nld E1_high = Ok j1 ->
  NormNLD.nearest ext nld E2_high = Ok j2 ->
  c_ (slice i1 i2 (col0 nld))
     (slice i1 i2 (fst (ext_get_discretes ext (col0 nld) fname (1 / 10))))
  = Ok discretes ->
  NormNLD.find_norm ext (self, w)
  = (Raise (UnboundLocalError "nldModel"),
     (NormNLD.set_discretes (Some discretes) self,
      mkWorld
        (trace w ++ [EvGetDiscretes (col0 nld) fname (1 / 10);
                     EvPrint "Other models not yet supported in this fit" []])
        (draws w))).
Proof.
  intros nld pnorm fname Hm H1 H2 H3 H4 N1 N2 N3 N4 Hc.
  unfold NormNLD.find_norm. fold nld. fold pnorm.
  do 8 run_step. fold nld. fold fname.
  destruct (ext_get_discretes ext (col0 nld) fname (1 / 10))
    as [levels other] eqn:EG.
  cbn [fst] in Hc. cbv beta iota.
  erewrite bind_run by (rewrite of_result_run; f_equal; exact Hc).
  erewrite bind_run by reflexivity.
  erewrite bind_run by (rewrite of_result_run; f_equal; exact N3).
  erewrite bind_run by (rewrite of_result_run; f_equal; exact N4).
  rewrite Hm.
  cbn. rewrite <- app_assoc. reflexivity.
Qed.

(** C8, on the code.  With the model name BSFG, [extrapolate] raises
    [TypeError] at its dispatch and leaves its arguments as they were;
    [find_norm] prints a message at its dispatch, raises no configuration
    error there, and stops at the next statement with [UnboundLocalError],
    after the discrete levels were fetched and stored in the object. *)
Theorem unsupported_model_BSFG :
  let ext :=
    mkExternals (fun _ _ _ _ => Fin 1) (fun _ _ _ => ([Fin 1], []))
      (fun _ _ => [])
      (fun _ _ => (mkPopt (Fin 1, Fin 0) (Fin 0, Fin 0) (Fin 1, Fin 0)
                     (Fin 1, Fin 0), []))
      (fun _ n => seq 0 n) (fun _ _ => 0) in
  let pnorm :=
    mkPNorm None None (Some 0) (Some 1) (Some 4) (Some 6)
      (Some [(0, 10); (0, 3); (0, 1); (0, 5)]) in
  let pext := mkPExt (Some (1, 8)) None None None None in
  let pspin := mkPSpin (Fin 8) (Fin 0) None [] in
  let self :=
    NormNLD.fresh (Cols2 [(1, Fin 2)]) "find_norm" pnorm "BSFG" pext pspin
      (Fin 1) "levels.txt" in
  NormNLD.extrapolate "BSFG" (pext, w0)
  = (Raise (TypeError "Error: NLD model not supported; check spelling"),
     (pext, w0))
  /\ NormNLD.find_norm ext (self, w0)
     = (Raise (UnboundLocalError "nldModel"),
        (NormNLD.set_discretes (Some []) self,
         mkWorld
           [EvGetDiscretes [1] "levels.txt" (1 / 10);
            EvPrint "Other models not yet supported in this fit" []]
           0)).
Proof.
  intros ext pnorm pext pspin self. split.
  - apply (extrapolate_unsupported_model "BSFG" pext (1, 8) w0); reflexivity.
  - apply (find_norm_unsupported_model ext self w0 0 1 4 6 0 0 0 0 []);
      reflexivity.
Qed.

(** ** C9: propagation of the uncertainty *)

(** With zero standard deviations a draw is the mean. *)
Lemma norm_rvs_zero_scale (ext : Externals) (rows : list (R * num * num))
  (w : world num) :
  Forall (fun r => snd r = Fin 0 /\ is_fin (snd (fst r)) = true) rows ->
  NormNLD.norm_rvs ext (col1 (Cols3 rows)) (col2 (Cols3 rows)) w
  = (Ok (col1 (Cols3 rows)),
     mkWorld
       (trace w ++ [EvNormRvs (col1 (Cols3 rows)) (col2 (Cols3 rows))])
       (S (draws w))).
Proof.
  intros Hrows. unfold NormNLD.norm_rvs.
  assert (Hneg : existsb NormNLD.negative (col2 (Cols3 rows)) = false).
  { cbn [col2]. clear w.
    induction Hrows as [|[[E v] u] rows [Hu Hv] Hrows IH]; [reflexivity|].
    cbn [map existsb snd] in *. subst u. rewrite IH.
    cbn [NormNLD.negative]. destruct (Rlt_dec 0 0); [lra|reflexivity]. }
  rewrite Hneg. clear Hneg. f_equal. f_equal.
  cbn [col1 col2]. rewrite length_map.
  generalize 0%nat as start.
  induction Hrows as [|[[E v] u] rows [Hu Hv] Hrows IH]; intros start;
    [reflexivity|].
  cbn [map length seq combine fst snd] in *. subst u.
  destruct (is_fin_inv _ Hv) as [x ->]. f_equal.
  - cbn. f_equal. ring.
  - apply IH.
Qed.

Lemma columns_repeat (n m : nat) (L : list num) :
  columns n (repeat L m)
  = map (fun j => repeat (nth j L NonFin) m) (seq 0 n).
Proof.
  unfold columns. apply map_ext. intros j.
  induction m as [|m IH]; [reflexivity|].
  cbn [repeat map]. rewrite IH. reflexivity.
Qed.

Lemma sum_repeat (x : R) (m : nat) :
  Np.sum (repeat (Fin x) m) = Fin (INR m * x).
Proof.
  induction m as [|m IH]; [cbn; f_equal; ring|].
  cbn [repeat Np.sum fold_right]. fold (Np.sum (repeat (Fin x) m)).
  rewrite IH, S_INR. cbn. f_equal. ring.
Qed.

Lemma mean_repeat (x : R) (m : nat) :
  (0 < m)%nat -> Np.mean (repeat (Fin x) m) = Fin x.
Proof.
  intros Hm. unfold Np.mean. rewrite sum_repeat, repeat_length.
  assert (HI : INR m <> 0) by (apply not_0_INR; lia).
  rewrite divide_Fin by exact HI. f_equal. field. exact HI.
Qed.

(** Equal values have no spread. *)
Lemma std_repeat (x : R) (m : nat) :
  (0 < m)%nat -> Np.std (repeat (Fin x) m) = Fin 0.
Proof.
  intros Hm. unfold Np.std. rewrite (mean_repeat x m Hm).
  rewrite map_repeat. cbn [Np.subtract Np.abs Np.square Np.multiply
                           Np.lift1 Np.lift2].
  rewrite (mean_repeat _ m Hm).
  rewrite sqrt_Fin.
  - f_equal. replace (x - x) with 0 by ring.
    rewrite Rabs_R0, Rmult_0_l. apply sqrt_0.
  - apply Rle_0_sqr.
Qed.

(** The event and the draw that one realization of the curve adds. *)
Lemma iter_draw (ev : event num) (n : nat) (self : NormNLD.Self)
  (w : world num) :
  exists w',
    Nat.iter n
      (fun s : NormNLD.Self * world num =>
         (fst s, mkWorld (trace (snd s) ++ [ev]) (S (draws (snd s)))))
      (self, w)
    = (self, w').
Proof.
  induction n as [|n [w' IH]]; [exists w; reflexivity|].
  rewrite Nat.iter_succ, IH. eexists. reflexivity.
Qed.

(** The transformed densities of a table of finite densities are finite. *)
Lemma normalize_nth_fin (pts : list (R * num)) (A alpha : R) (j : nat) :
  Forall (fun p => is_fin (snd p) = true) pts ->
  (j < length pts)%nat ->
  exists x,
    nth j (col1 (NormNLD.normalize (Cols2 pts) (Fin A) (Fin alpha))) NonFin
    = Fin x.
Proof.
  intros H. revert j. induction H as [|[E v] pts Hv Hpts IH]; intros j Hj;
    cbn [length] in Hj; [lia|].
  destruct j as [|j].
  - cbn in Hv. destruct (is_fin_inv _ Hv) as [x ->]. cbn. eauto.
  - cbn [NormNLD.normalize col1 map nth] in *. apply IH. lia.
Qed.

(** The steps of a run that draws from a table of zero uncertainties. *)
Ltac run_rvs ext rows :=
  repeat
    (erewrite bind_run
       by first
            [ reflexivity
            | apply static_run; apply (norm_rvs_zero_scale ext rows);
              repeat constructor
            | cbn [mapM seq Nat.min length lookup String.eqb Ascii.eqb
                   Bool.eqb]; run_rvs ext rows; reflexivity ]).

(** C9, amended.  On a table whose uncertainties are all zero (and whose
    densities are finite), with at least one posterior sample, when all
    the samples that [normalize_scanning_samples] uses carry one and the
    same [(A, alpha)], the standard deviation it stores for every energy
    bin is zero in exact real arithmetic (the formulas of the program
    without rounding); on binary64 values the mean is rounded and the
    result can be a small number that is not zero. *)
Theorem normalize_scanning_samples_zero_unc (ext : Externals)
  (self : NormNLD.Self) (w : world num) (popt : Popt) (samples : Samples)
  (rows : list (R * num * num)) (key0 : string) (value0 : list num)
  (rest : Samples) (As alphas : list num) (A0 alpha0 : R) :
  let randlist := ext_shuffle ext (draws w) (length value0) in
  NormNLD.self_nld self = Cols3 rows ->
  Forall (fun r => snd r = Fin 0 /\ is_fin (snd (fst r)) = true) rows ->
  samples = (key0, value0) :: rest ->
  lookup "A" samples = Some As ->
  lookup "alpha" samples = Some alphas ->
  (0 < length As)%nat ->
  (forall i, (i < Nat.min 100 (length As))%nat ->
     exists i_multi,
       nth_error randlist i = Some i_multi
       /\ nth_error As i_multi = Some (Fin A0)
       /\ nth_error alphas i_multi = Some (Fin alpha0)) ->
  exists self' w' nld_norm,
    NormNLD.normalize_scanning_samples ext popt samples (self, w)
    = (Ok tt, (self', w'))
    /\ NormNLD.self_nld_norm self' = Some nld_norm
    /\ col0 nld_norm = col0 (Cols3 rows)
    /\ col2 nld_norm = map (fun _ => Fin 0) rows.
Proof.
  intros randlist Hnld Hrows Hs HA Halpha HN Hidx.
  set (nld := Cols3 rows) in *.
  set (N_loop := Nat.min 100 (length As)) in *.
  set (L := col1 (NormNLD.normalize (Cols2 (combine (col0 nld) (col1 nld)))
                    (Fin A0) (Fin alpha0))).
  set (ev := @EvNormRvs num (col1 nld) (col2 nld)).
  set (step := fun s : NormNLD.Self * world num =>
                 (fst s, mkWorld (trace (snd s) ++ [ev]) (S (draws (snd s))))).
  assert (Hlen01 : length (col0 nld) = length (col1 nld))
    by (rewrite col0_length, col1_length; reflexivity).
  assert (HL : length L = length rows).
  { subst L. rewrite col1_length, normalize_len. cbn [len].
    rewrite length_combine, <- Hlen01, Nat.min_id, col0_length. reflexivity. }
  destruct (iter_draw ev N_loop self
              (mkWorld (trace w ++ [EvShuffle (length value0)])
                 (S (draws w)))) as [w2 Hw2].
  fold step in Hw2.
  unfold NormNLD.normalize_scanning_samples.
  rewrite get_self_run, Hnld. fold nld. subst samples.
  erewrite bind_run by reflexivity.
  erewrite bind_run by reflexivity.
  fold randlist.
  replace (Nat.eqb (shape1 nld) 3) with true by reflexivity.
  replace (Nat.eqb (shape1 nld) 2) with false by reflexivity.
  erewrite bind_run.
  2:{ erewrite bind_run by (apply getitem_run; exact HA).
      fold N_loop.
      erewrite bind_run.
      2:{ apply (mapM_const _ _ L step). intros i [self1 w1] Hi.
          apply in_seq in Hi.
          destruct (Hidx i) as (i_multi & Hr & HAi & Hai); [lia|].
          erewrite bind_run by (apply index_run; exact Hr).
          erewrite bind_run
            by (apply static_run, (norm_rvs_zero_scale ext rows w1 Hrows)).
          erewrite bind_run
            by (rewrite of_result_run, c__same_length by exact Hlen01;
                reflexivity).
          erewrite bind_run by (apply getitem_run; exact HA).
          erewrite bind_run by (apply index_run; exact HAi).
          erewrite bind_run by (apply getitem_run; exact Halpha).
          erewrite bind_run by (apply index_run; exact Hai).
          reflexivity. }
      rewrite length_seq, Hw2.
      erewrite bind_run
        by (rewrite of_result_run, c__same_length
              by (rewrite length_map; unfold columns;
                  rewrite length_map, length_seq; reflexivity);
            reflexivity).
      erewrite bind_run
        by (rewrite of_result_run, c__same_length
              by (rewrite length_combine, !length_map; unfold columns;
                  rewrite !length_map, length_seq, Nat.min_id; reflexivity);
            reflexivity).
      apply update_run. }
  do 3 eexists. split; [reflexivity|].
  split; [reflexivity|].
  assert (Hcols : length (col0 nld)
                  = length (map median (columns (length (col0 nld))
                                          (repeat L N_loop)))).
  { rewrite length_map. unfold columns. rewrite length_map, length_seq.
    reflexivity. }
  assert (Hstd : length (combine (col0 nld)
                           (map median (columns (length (col0 nld))
                                          (repeat L N_loop))))
                 = length (map Np.std (columns (length (col0 nld))
                                         (repeat L N_loop)))).
  { rewrite length_combine, <- Hcols, Nat.min_id, length_map.
    unfold columns. rewrite length_map, length_seq. reflexivity. }
  split.
  - cbn [col0]. rewrite <- (map_map fst fst).
    rewrite (map_fst_combine _ _ Hstd), (map_fst_combine _ _ Hcols).
    reflexivity.
  - cbn [col2]. rewrite (map_snd_combine _ _ Hstd).
    rewrite columns_repeat, map_map, map_const.
    rewrite col0_length. cbn [len nld].
    apply map_seq_const. intros j Hj.
    destruct (normalize_nth_fin (combine (col0 nld) (col1 nld)) A0 alpha0 j)
      as [x Hx].
    + clear - Hrows. subst nld. cbn [col0 col1].
      induction Hrows as [|[[E v] u] rows [_ Hv] _ IH]; cbn; constructor; auto.
    + rewrite length_combine, <- Hlen01, Nat.min_id, col0_length. exact Hj.
    + fold L in Hx. rewrite Hx. apply std_repeat.
      subst N_loop. lia.
Qed.

Lemma normalize_scanning_samples_zero_unc_witness :
  let ext :=
    mkExternals (fun _ _ _ _ => Fin 1) (fun _ _ _ => ([], []))
      (fun _ _ => [])
      (fun _ _ => (mkPopt (Fin 2, Fin 0) (Fin 1, Fin 0) (Fin 1, Fin 0)
                     (Fin 1, Fin 0), []))
      (fun _ n => seq 0 n) (fun _ _ => 7) in
  let popt := mkPopt (Fin 2, Fin 0) (Fin 1, Fin 0) (Fin 1, Fin 0) (Fin 1, Fin 0) in
  let samples :=
    [("A"%string, [Fin 2; Fin 2]); ("alpha"%string, [Fin 1; Fin 1])] in
  let self :=
    NormNLD.fresh (Cols3 [(1, Fin 3, Fin 0)]) "find_norm"
      (mkPNorm None None None None None None None) "CT"
      (mkPExt None None None None None) (mkPSpin (Fin 8) (Fin 0) None [])
      (Fin 1) "levels.txt" in
  exists self' w' nld_norm,
    NormNLD.normalize_scanning_samples ext popt samples (self, w0)
    = (Ok tt, (self', w'))
    /\ NormNLD.self_nld_norm self' = Some nld_norm
    /\ col0 nld_norm = [1]
    /\ col2 nld_norm = [Fin 0].
Proof.
  intros ext popt samples self.
  apply (normalize_scanning_samples_zero_unc ext self w0 popt samples
           [(1, Fin 3, Fin 0)] "A" [Fin 2; Fin 2]
           [("alpha"%string, [Fin 1; Fin 1])] [Fin 2; Fin 2] [Fin 1; Fin 1]
           2 1); try reflexivity.
  - repeat constructor.
  - cbn. lia.
  - intros i Hi. cbn in Hi.
    destruct i as [|[|i]]; [exists 0%nat | exists 1%nat | lia];
      repeat split; reflexivity.
Defined.

Lemma std_1_3 : Np.std [Fin 1; Fin 3] = Fin 1.
Proof.
  unfold Np.std, Np.mean.
  cbn [length map Np.sum fold_right Np.add Np.lift2 INR].
  rewrite divide_Fin by lra.
  replace ((1 + (3 + 0)) / (1 + 1)) with 2 by field.
  cbn [map Np.subtract Np.abs Np.square Np.multiply Np.lift1 Np.lift2 Np.sum
       fold_right Np.add length INR].
  rewrite divide_Fin by lra.
  replace (1 - 2) with (- (1)) by ring. replace (3 - 2) with 1 by ring.
  rewrite Rabs_Ropp, Rabs_R1.
  replace ((1 * 1 + (1 * 1 + 0)) / (1 + 1)) with 1 by field.
  rewrite sqrt_Fin by lra. rewrite sqrt_1. reflexivity.
Qed.

(** C9, on the code.  A table with zero uncertainty and two posterior
    samples, [A = 1] and [A = 3] with [alpha = 0]: the two normalized
    curves are 1 and 3 at the only bin, and the stored standard deviation
    is 1. *)
Lemma normalize_scanning_samples_spread :
  let ext :=
    mkExternals (fun _ _ _ _ => Fin 1) (fun _ _ _ => ([], []))
      (fun _ _ => [])
      (fun _ _ => (mkPopt (Fin 2, Fin 0) (Fin 0, Fin 0) (Fin 1, Fin 0)
                     (Fin 1, Fin 0), []))
      (fun _ n => seq 0 n) (fun _ _ => 7) in
  let popt := mkPopt (Fin 2, Fin 1) (Fin 0, Fin 0) (Fin 1, Fin 0) (Fin 1, Fin 0) in
  let samples :=
    [("A"%string, [Fin 1; Fin 3]); ("alpha"%string, [Fin 0; Fin 0])] in
  let self :=
    NormNLD.fresh (Cols3 [(0, Fin 1, Fin 0)]) "find_norm"
      (mkPNorm None None None None None None None) "CT"
      (mkPExt None None None None None) (mkPSpin (Fin 8) (Fin 0) None [])
      (Fin 1) "levels.txt" in
  exists self' w',
    NormNLD.normalize_scanning_samples ext popt samples (self, w0)
    = (Ok tt, (self', w'))
    /\ option_map col2 (NormNLD.self_nld_norm self') = Some [Fin 1].
Proof.
  intros ext popt samples self.
  do 2 eexists. split.
  - unfold NormNLD.normalize_scanning_samples. rewrite get_self_run.
    change (shape1 (NormNLD.self_nld self)) with 3%nat. cbn [Nat.eqb].
    run_rvs ext [(0, Fin 1, Fin 0)].
    reflexivity.
  - subst self ext samples. unfold mkExternals.
    cbn [NormNLD.self_nld_norm NormNLD.set_nld_norm option_map col2 col1 col0
         map snd fst combine columns seq nth length NormNLD.normalize
         NormNLD.fresh NormNLD.self_nld Np.add Np.multiply Np.lift2 Np.exp
         Np.lift1 ext_standard_normal].
    replace (1 * 1 * exp (0 * 0)) with 1
      by (rewrite (Rmult_0_l 0), exp_0; ring).
    replace (1 * 3 * exp (0 * 0)) with 3
      by (rewrite (Rmult_0_l 0), exp_0; ring).
    rewrite std_1_3. reflexivity.
Qed.

(** ** C10: the fit windows *)

(** [extrapolate] on the CT model, with the range, [T] and [Eshift]
    given. *)
Lemma extrapolate_CT_run (pars : PExt) (ext_range : R * R) (T Eshift : num)
  (w : world num) :
  px_ext_range pars = Some ext_range ->
  px_T pars = Some T ->
  px_Eshift pars = Some Eshift ->
  let Earr := linspace (fst ext_range) (snd ext_range) 50 in
  NormNLD.extrapolate "CT" (pars, w)
  = (Ok (combine Earr (map (fun E => NormNLD.CT (Fin E) T Eshift) Earr)),
     (NormNLD.pext_set_Earr Earr pars, w)).
Proof.
  intros Hr HT HE Earr. unfold NormNLD.extrapolate.
  erewrite bind_run by reflexivity.
  erewrite bind_run by (apply getitem_run; eassumption).
  fold Earr. cbn [String.eqb Ascii.eqb Bool.eqb].
  rewrite !andb_false_r.
  erewrite bind_run.
  2:{ erewrite bind_run by reflexivity.
      erewrite bind_run by reflexivity.
      erewrite bind_run by reflexivity.
      unfold NormNLD.call_model.
      cbn [NormNLD.pext_set_Earr px_T px_Eshift px_Earr].
      rewrite HT, HE. cbn [NormNLD.isSome forallb andb].
      erewrite bind_run by reflexivity.
      erewrite bind_run by reflexivity.
      erewrite bind_run by reflexivity.
      reflexivity. }
  rewrite of_result_run, c__same_length by (rewrite length_map; reflexivity).
  reflexivity.
Qed.


(** [argmin] returns the first index of a least element. *)
Lemma argmin_from_spec (s p : list R) (best : R) (ibest : nat) :
  nth_error p ibest = Some best ->
  (forall x, In x p -> best <= x) ->
  (forall k x, (k < ibest)%nat -> nth_error p k = Some x -> best < x) ->
  exists m,
    nth_error (p ++ s) (argmin_from best ibest (length p) s) = Some m
    /\ (forall x, In x (p ++ s) -> m <= x)
    /\ (forall k x,
          (k < argmin_from best ibest (length p) s)%nat ->
          nth_error (p ++ s) k = Some x -> m < x).
Proof.
  revert p best ibest. induction s as [|y s IH]; intros p best ibest Hb Hmin Hfirst.
  - cbn. rewrite app_nil_r. exists best. auto.
  - cbn [argmin_from].
    assert (Hlen : (ibest < length p)%nat)
      by (apply nth_error_Some; rewrite Hb; discriminate).
    replace (p ++ y :: s) with ((p ++ [y]) ++ s) in *
      by (rewrite <- app_assoc; reflexivity).
    assert (HS : S (length p) = length (p ++ [y]))
      by (rewrite length_app; cbn; lia).
    rewrite HS.
    destruct (Rlt_dec y best) as [Hy|Hy].
    + apply IH.
      * rewrite nth_error_app2 by lia. rewrite Nat.sub_diag. reflexivity.
      * intros x Hx. apply in_app_or in Hx as [Hx|[<-|[]]]; [|lra].
        specialize (Hmin x Hx). lra.
      * intros k x Hk Hx. rewrite nth_error_app1 in Hx by exact Hk.
        apply nth_error_In in Hx. specialize (Hmin x Hx). lra.
    + apply IH.
      * rewrite nth_error_app1 by exact Hlen. exact Hb.
      * intros x Hx. apply in_app_or in Hx as [Hx|[<-|[]]]; [auto | lra].
      * intros k x Hk Hx. rewrite nth_error_app1 in Hx by lia.
        eapply Hfirst; eassumption.
Qed.

Lemma argmin_spec (a : list R) (i : nat) :
  argmin a = Ok i ->
  exists m,
    nth_error a i = Some m
    /\ (forall x, In x a -> m <= x)
    /\ (forall k x, (k < i)%nat -> nth_error a k = Some x -> m < x).
Proof.
  destruct a as [|x a]; cbn [argmin]; [discriminate|].
  intros H. injection H as <-.
  apply (argmin_from_spec a [x] x 0).
  - reflexivity.
  - intros y [<-|[]]. lra.
  - intros k y Hk. lia.
Qed.







(* ================================================================== *)
(** * Part III: further properties of the code                         *)
(* ================================================================== *)

(** ** The transformation [normalize] *)

(** X1.  [normalize] keeps the energy column, the number of columns and
    the number of rows of the table, whatever the parameters. *)
Theorem normalize_keeps_grid (nld : curve) (A alpha : num) :
  col0 (NormNLD.normalize nld A alpha) = col0 nld
  /\ shape1 (NormNLD.normalize nld A alpha) = shape1 nld
  /\ len (NormNLD.normalize nld A alpha) = len nld.
Proof.
  split; [|split].
  - destruct nld as [rows|rows]; cbn [NormNLD.normalize col0];
      rewrite map_map; apply map_ext.
    + intros [E v]. reflexivity.
    + intros [[E v] u]. reflexivity.
  - destruct nld; reflexivity.
  - apply normalize_len.
Qed.

Lemma compose_row2 (A1 a1 A2 a2 Ex : R) (v : num) :
  (v * Fin A1 * Np.exp (Fin a1 * Fin Ex) * Fin A2
   * Np.exp (Fin a2 * Fin Ex))%num
  = (v * Fin (A1 * A2) * Np.exp (Fin (a1 + a2) * Fin Ex))%num.
Proof.
  destruct v as [x|]; [|reflexivity]. cbn. f_equal.
  rewrite Rmult_plus_distr_r, exp_plus. ring.
Qed.

(** X2.  Two transformations in a row are one transformation with the
    product of the scales and the sum of the rates; on a table with an
    uncertainty column this needs finite entries, non-zero densities and a
    non-zero first scale. *)
Theorem normalize_compose (nld : curve) (A1 alpha1 A2 alpha2 : R) :
  (shape1 nld = 3%nat ->
   A1 <> 0 /\ finite_curve nld = true
   /\ Forall (fun v => v <> Fin 0) (col1 nld)) ->
  NormNLD.normalize (NormNLD.normalize nld (Fin A1) (Fin alpha1))
    (Fin A2) (Fin alpha2)
  = NormNLD.normalize nld (Fin (A1 * A2)) (Fin (alpha1 + alpha2)).
Proof.
  intros H3.
  destruct nld as [rows|rows]; cbn [NormNLD.normalize].
  - f_equal. rewrite map_map. apply map_ext. intros [Ex v].
    f_equal. apply compose_row2.
  - destruct (H3 eq_refl) as (HA & Hfin & Hnz).
    unfold finite_curve in Hfin. apply andb_prop in Hfin as [H1 H2].
    rewrite forallb_forall in H1, H2. rewrite Forall_forall in Hnz.
    cbn [col1 col2] in *.
    f_equal. rewrite map_map. apply map_ext_in. intros [[Ex v] u] Hin.
    assert (Hv : is_fin v = true).
    { apply H1. apply (in_map (fun r => snd (fst r))) in Hin. exact Hin. }
    assert (Hu : is_fin u = true).
    { apply H2. apply (in_map snd) in Hin. exact Hin. }
    assert (Hv0 : v <> Fin 0).
    { apply Hnz. apply (in_map (fun r => snd (fst r))) in Hin. exact Hin. }
    cbv beta iota zeta. rewrite compose_row2. f_equal.
    destruct (is_fin_inv _ Hv) as [x ->]. destruct (is_fin_inv _ Hu) as [y ->].
    assert (Hx : x <> 0) by (intros ->; apply Hv0; reflexivity).
    rewrite (divide_Fin y x) by exact Hx.
    cbn [Np.multiply Np.lift2 Np.exp Np.lift1].
    rewrite divide_Fin
      by (repeat apply Rmult_integral_contrapositive_currified; auto).
    cbn. f_equal. rewrite Rmult_plus_distr_r, exp_plus. field.
    repeat split; auto.
Qed.

Lemma normalize_compose_witness :
  NormNLD.normalize
    (NormNLD.normalize (Cols3 [(1, Fin 2, Fin 3)]) (Fin 2) (Fin 1))
    (Fin 5) (Fin 4)
  = NormNLD.normalize (Cols3 [(1, Fin 2, Fin 3)]) (Fin (2 * 5)) (Fin (1 + 4)).
Proof.
  apply (normalize_compose (Cols3 [(1, Fin 2, Fin 3)]) 2 1 5 4).
  intros _. split; [lra|]. split; [reflexivity|].
  repeat constructor. intros H. injection H. lra.
Defined.

(** X3.  The transformation with [A = 1] and [alpha = 0] changes nothing
    on a table of finite entries (with non-zero densities when there is an
    uncertainty column). *)
Theorem normalize_identity (nld : curve) :
  finite_curve nld = true ->
  (shape1 nld = 3%nat -> Forall (fun v => v <> Fin 0) (col1 nld)) ->
  NormNLD.normalize nld (Fin 1) (Fin 0) = nld.
Proof.
  intros Hfin Hnz. unfold finite_curve in Hfin.
  apply andb_prop in Hfin as [H1 H2]. rewrite forallb_forall in H1, H2.
  assert (Hone : forall x Ex, x * 1 * exp (0 * Ex) = x)
    by (intros; rewrite Rmult_0_l, exp_0; ring).
  destruct nld as [rows|rows]; cbn [NormNLD.normalize col1 col2] in *.
  - f_equal. rewrite <- (map_id rows) at 2. apply map_ext_in.
    intros [Ex v] Hin.
    destruct (is_fin_inv v) as [x ->].
    { apply H1. apply (in_map snd) in Hin. exact Hin. }
    cbn. rewrite Hone. reflexivity.
  - specialize (Hnz eq_refl). rewrite Forall_forall in Hnz.
    f_equal. rewrite <- (map_id rows) at 2. apply map_ext_in.
    intros [[Ex v] u] Hin.
    destruct (is_fin_inv v) as [x Hx].
    { apply H1. apply (in_map (fun r => snd (fst r))) in Hin. exact Hin. }
    destruct (is_fin_inv u) as [y ->].
    { apply H2. apply (in_map snd) in Hin. exact Hin. }
    assert (Hx0 : x <> 0).
    { intros ->. apply (Hnz v); [|exact Hx].
      apply (in_map (fun r => snd (fst r))) in Hin. exact Hin. }
    subst v. cbv beta iota zeta. rewrite divide_Fin by exact Hx0.
    cbn. rewrite Hone. do 2 f_equal. field. exact Hx0.
Qed.

Lemma normalize_identity_witness :
  NormNLD.normalize (Cols3 [(1, Fin 2, Fin 3)]) (Fin 1) (Fin 0)
  = Cols3 [(1, Fin 2, Fin 3)].
Proof.
  apply normalize_identity; [reflexivity|].
  intros _. repeat constructor. intros H. injection H. lra.
Defined.

(** X4.  In exact real arithmetic, the transformation keeps the relative
    uncertainty of every bin: on a three-column table of finite entries
    with non-zero densities and for [A <> 0], [unc' / value' = unc / value]
    bin by bin (on binary64 values the quotients can differ by
    rounding). *)
Theorem normalize_relative_uncertainty (rows : list (R * num * num))
  (A alpha : R) :
  A <> 0 ->
  finite_curve (Cols3 rows) = true ->
  Forall (fun v => v <> Fin 0) (col1 (Cols3 rows)) ->
  let out := NormNLD.normalize (Cols3 rows) (Fin A) (Fin alpha) in
  map2 Np.divide (col2 out) (col1 out)
  = map2 Np.divide (col2 (Cols3 rows)) (col1 (Cols3 rows)).
Proof.
  intros HA Hfin Hnz out. subst out. unfold finite_curve in Hfin.
  apply andb_prop in Hfin as [H1 H2]. rewrite forallb_forall in H1, H2.
  rewrite Forall_forall in Hnz.
  cbn [NormNLD.normalize col1 col2] in *.
  induction rows as [|[[Ex v] u] rows IH]; [reflexivity|].
  cbn [map map2 fst snd] in *.
  rewrite IH; [| intros a Ha; apply H1; right; exact Ha
              | intros a Ha; apply H2; right; exact Ha
              | intros a Ha; apply Hnz; right; exact Ha ].
  f_equal.
  destruct (is_fin_inv v) as [x Hx]; [apply H1; left; reflexivity|].
  destruct (is_fin_inv u) as [y ->]; [apply H2; left; reflexivity|].
  assert (Hx0 : x <> 0).
  { intros ->. apply (Hnz v); [left; reflexivity | exact Hx]. }
  subst v. rewrite (divide_Fin y x) by exact Hx0.
  cbn [Np.multiply Np.lift2 Np.exp Np.lift1].
  rewrite divide_Fin
    by (repeat apply Rmult_integral_contrapositive_currified; auto).
  f_equal. field. repeat split; auto.
Qed.

Lemma normalize_relative_uncertainty_witness :
  let out := NormNLD.normalize (Cols3 [(1, Fin 2, Fin 3)]) (Fin 2) (Fin 1) in
  map2 Np.divide (col2 out) (col1 out) = [(Fin 3 / Fin 2)%num].
Proof.
  apply (normalize_relative_uncertainty [(1, Fin 2, Fin 3)] 2 1).
  - lra.
  - reflexivity.
  - repeat constructor. intros H. injection H. lra.
Defined.

(** ** The constant-temperature model *)

(** X5.  In exact real arithmetic, for a temperature [T > 0] the
    constant-temperature density is a positive number at every energy and
    grows strictly with the energy (on binary64 values the exponential
    underflows to 0 far below [Eshift] and overflows far above). *)
Theorem CT_positive_increasing (E1 E2 T Eshift : R) :
  0 < T ->
  exists rho1 rho2,
    NormNLD.CT (Fin E1) (Fin T) (Fin Eshift) = Fin rho1
    /\ NormNLD.CT (Fin E2) (Fin T) (Fin Eshift) = Fin rho2
    /\ 0 < rho1
    /\ (E1 < E2 -> rho1 < rho2).
Proof.
  intros HT.
  assert (HCT : forall E, NormNLD.CT (Fin E) (Fin T) (Fin Eshift)
                          = Fin (exp ((E - Eshift) / T) / T)).
  { intros E. unfold NormNLD.CT. cbn [Np.subtract Np.lift2].
    rewrite divide_Fin by lra. cbn [Np.exp Np.lift1].
    rewrite divide_Fin by lra. reflexivity. }
  exists (exp ((E1 - Eshift) / T) / T), (exp ((E2 - Eshift) / T) / T).
  split; [apply HCT|]. split; [apply HCT|]. split.
  - apply Rdiv_lt_0_compat; [apply exp_pos | exact HT].
  - intros HE. unfold Rdiv at 1 3.
    apply Rmult_lt_compat_r; [apply Rinv_0_lt_compat; exact HT|].
    apply exp_increasing. unfold Rdiv.
    apply Rmult_lt_compat_r; [apply Rinv_0_lt_compat; exact HT | lra].
Qed.

Lemma CT_positive_increasing_witness :
  exists rho1 rho2,
    NormNLD.CT (Fin 1) (Fin 2) (Fin 0) = Fin rho1
    /\ NormNLD.CT (Fin 3) (Fin 2) (Fin 0) = Fin rho2
    /\ 0 < rho1
    /\ (1 < 3 -> rho1 < rho2).
Proof.
  apply (CT_positive_increasing 1 3 2 0). lra.
Defined.

(** X6.  In exact real arithmetic, [EshiftFromT] is a finite number
    exactly when [nld(Sn) * T > 0]; otherwise the logarithm is not defined
    and the result is not finite (no exception is raised).  On binary64
    values the product can overflow and the result is then not finite
    either. *)
Theorem EshiftFromT_finite_iff (T Sn rho : R) :
  is_fin (NormNLD.EshiftFromT (Fin T) (Fin Sn, Fin rho)) = true
  <-> 0 < rho * T.
Proof.
  unfold NormNLD.EshiftFromT. cbn [fst snd Np.multiply Np.lift2 Np.log].
  destruct (Rlt_dec 0 (rho * T)) as [H|H]; cbn.
  - split; [intros _; exact H | reflexivity].
  - split; [discriminate | contradiction].
Qed.

(** ** The level density at the separation energy *)

(** X7.  In exact real arithmetic and on numpy scalars, the level
    density that [nldSn_from_D0] returns is inversely proportional to the
    resonance spacing: when it is the finite number [rho] for [D0], it is
    [rho / k] for [k * D0], for every [k <> 0] (on binary64 values the two
    can differ by rounding); the energy [Sn] is returned as given. *)
Theorem nldSn_from_D0_inverse_spacing
  (distibution : num -> num -> option string -> list (string * num) -> num)
  (D0 k rho : R) (Sn0 J0 : num) (model : option string)
  (pars : list (string * num)) (w : world num) :
  k <> 0 ->
  fst (NormNLD.nldSn_from_D0 distibution (Fin D0) Sn0 J0 model pars w)
  = Ok (Sn0, Fin rho) ->
  fst (NormNLD.nldSn_from_D0 distibution (Fin (k * D0)) Sn0 J0 model pars w)
  = Ok (Sn0, Fin (rho / k)).
Proof.
  intros Hk.
  pose proof (nldSn_from_D0_run distibution (Fin D0)
                (mkPSpin Sn0 J0 model pars) w) as R1.
  pose proof (nldSn_from_D0_run distibution (Fin (k * D0))
                (mkPSpin Sn0 J0 model pars) w) as R2.
  cbn [Sn J_target spincutModel spincutPars] in R1, R2.
  rewrite R1, R2. clear R1 R2.
  unfold nld_at_Sn.
  cbn [fst Sn J_target spincutModel spincutPars].
  match goal with
  | |- context [(?s * Fin D0 * _)%num] => generalize s
  end.
  intros [s|]; cbn [Np.multiply Np.lift2]; [|cbn; discriminate].
  unfold Np.divide at 1.
  destruct (Req_dec_T (s * D0 * (1 / 1000000)) 0) as [|Hnz]; [discriminate|].
  intros H. injection H as <-.
  rewrite divide_Fin.
  - do 3 f_equal. field. repeat split; try lra.
    + intros ->. apply Hnz. ring.
    + intros ->. apply Hnz. ring.
  - intros H. apply Hnz.
    replace (s * (k * D0) * (1 / 1000000)) with (k * (s * D0 * (1 / 1000000)))
      in H by ring.
    apply Rmult_integral in H as [H|H]; [contradiction | exact H].
Qed.

Lemma nldSn_from_D0_inverse_spacing_witness :
  fst (NormNLD.nldSn_from_D0 (fun _ _ _ _ => Fin 1000000) (Fin (2 * 1))
         (Fin 8) (Fin 0) None [] w0)
  = Ok (Fin 8, Fin (1 / 2)).
Proof.
  apply (nldSn_from_D0_inverse_spacing (fun _ _ _ _ => Fin 1000000) 1 2 1
           (Fin 8) (Fin 0) None [] w0).
  - lra.
  - pose proof (nldSn_from_D0_run (fun _ _ _ _ => Fin 1000000) (Fin 1)
                  (mkPSpin (Fin 8) (Fin 0) None []) w0) as R1.
    cbn [Sn J_target spincutModel spincutPars] in R1. rewrite R1.
    unfold nld_at_Sn. cbn [fst Sn J_target spincutModel spincutPars].
    rewrite eq0_Fin_true by reflexivity.
    cbn [Np.multiply Np.lift2]. rewrite divide_Fin by lra.
    do 3 f_equal. field.
Defined.

(** ** The cost function [chi2_disc_ext] *)

(** X8.  A parameter array with fewer than four entries makes
    [chi2_disc_ext] fail at once, with [ValueError] below two entries
    (the unpacking of [x[:2]]) and [IndexError] for two or three, before
    the data are touched or the spin distribution is called. *)
Theorem chi2_disc_ext_short_x
  (distibution : num -> num -> option string -> list (string * num) -> num)
  (x : list num) (nldModel : nld_model) (data_low data_high : curve)
  (levels_smoothed : list num) (pspin : PSpin num) (returnPars : bool)
  (w : world num) :
  (length x < 4)%nat ->
  NormNLD.chi2_disc_ext distibution x nldModel data_low data_high
    levels_smoothed pspin returnPars w
  = (Raise (if Nat.ltb (length x) 2
            then ValueError "not enough values to unpack (expected 2)"
            else IndexError), w).
Proof.
  intros Hx.
  destruct x as [|A [|alpha [|T [|D0 rest]]]]; cbn in Hx; try lia;
    reflexivity.
Qed.

Lemma chi2_disc_ext_short_x_witness :
  NormNLD.chi2_disc_ext (fun _ _ _ _ => Fin 1) [Fin 1; Fin 0; Fin 1]
    NormNLD.CT (Cols2 [(1, Fin 2)]) (Cols2 []) [Fin 2]
    (mkPSpin (Fin 8) (Fin 0) None []) false w0
  = (Raise IndexError, w0).
Proof.
  apply (chi2_disc_ext_short_x (fun _ _ _ _ => Fin 1) [Fin 1; Fin 0; Fin 1]).
  cbn. lia.
Defined.

Lemma broadcast_mismatch (f : num -> num -> num) (a b : list num) :
  length a <> length b -> length a <> 1%nat -> length b <> 1%nat ->
  broadcast f a b
  = Raise (ValueError "operands could not be broadcast together").
Proof.
  intros Hab Ha Hb. unfold broadcast.
  apply Nat.eqb_neq in Hab. rewrite Hab.
  destruct a as [|x [|x' a]], b as [|y [|y' b]]; cbn in *;
    try reflexivity; congruence.
Qed.

(** X9.  When [levels_smoothed] has neither the number of rows of
    [data_low] nor one entry, and [data_low] has not one row,
    [chi2_disc_ext] raises the broadcasting [ValueError] of the first
    subtraction; the spin distribution has not been called then. *)
Theorem chi2_disc_ext_shape_mismatch
  (distibution : num -> num -> option string -> list (string * num) -> num)
  (A alpha T D0 : num) (rest : list num) (nldModel : nld_model)
  (data_low data_high : curve) (levels_smoothed : list num)
  (pspin : PSpin num) (returnPars : bool) (w : world num) :
  len data_low <> length levels_smoothed ->
  len data_low <> 1%nat ->
  length levels_smoothed <> 1%nat ->
  NormNLD.chi2_disc_ext distibution (A :: alpha :: T :: D0 :: rest) nldModel
    data_low data_high levels_smoothed pspin returnPars w
  = (Raise (ValueError "operands could not be broadcast together"), w).
Proof.
  intros H1 H2 H3. unfold NormNLD.chi2_disc_ext, bind.
  rewrite of_result_run, broadcast_mismatch;
    rewrite ?col1_length, ?normalize_len; auto.
Qed.

Lemma chi2_disc_ext_shape_mismatch_witness :
  NormNLD.chi2_disc_ext (fun _ _ _ _ => Fin 1) [Fin 1; Fin 0; Fin 1; Fin 1]
    NormNLD.CT (Cols2 [(1, Fin 2); (2, Fin 3); (3, Fin 4)]) (Cols2 [])
    [Fin 2; Fin 3] (mkPSpin (Fin 8) (Fin 0) None []) false w0
  = (Raise (ValueError "operands could not be broadcast together"), w0).
Proof.
  apply (chi2_disc_ext_shape_mismatch (fun _ _ _ _ => Fin 1)
           (Fin 1) (Fin 0) (Fin 1) (Fin 1) []); cbn; lia.
Defined.

Lemma broadcast_single (f : num -> num -> num) (a : list num) (y : num) :
  broadcast f a [y] = broadcast f a (repeat y (length a)).
Proof.
  assert (Hmap : forall l, map2 f l (repeat y (length l))
                           = map (fun x => f x y) l).
  { induction l as [|x l IH]; [reflexivity|]. cbn. rewrite IH. reflexivity. }
  unfold broadcast at 2. rewrite repeat_length, Nat.eqb_refl, Hmap.
  unfold broadcast.
  destruct a as [|x [|x' a]]; reflexivity.
Qed.

(** X10.  A [levels_smoothed] of one entry is broadcast: the cost, the
    outcome and the calls are those for that level repeated once per row
    of [data_low]. *)
Theorem chi2_disc_ext_single_level
  (distibution : num -> num -> option string -> list (string * num) -> num)
  (x : list num) (nldModel : nld_model) (data_low data_high : curve)
  (level : num) (pspin : PSpin num) (returnPars : bool) (w : world num) :
  NormNLD.chi2_disc_ext distibution x nldModel data_low data_high [level]
    pspin returnPars w
  = NormNLD.chi2_disc_ext distibution x nldModel data_low data_high
      (repeat level (len data_low)) pspin returnPars w.
Proof.
  destruct x as [|A [|alpha [|T [|D0 rest]]]]; try reflexivity.
  unfold NormNLD.chi2_disc_ext.
  rewrite broadcast_single, col1_length, normalize_len. reflexivity.
Qed.

Lemma bind_raise {S A B : Type} (m : St S A) (k : A -> St S B) (w w' : S)
  (e : exn) :
  m w = (Raise e, w') -> bind m k w = (Raise e, w').
Proof. intros H. unfold bind. rewrite H. reflexivity. Qed.

(** [chi2_disc_ext] raises or returns whatever [returnPars] is, and when
    it returns, the world has gained the calls of the spin distribution. *)
Lemma chi2_disc_ext_steps
  (distibution : num -> num -> option string -> list (string * num) -> num)
  (A alpha T D0 : num) (rest : list num) (nldModel : nld_model)
  (data_low data_high : curve) (levels_smoothed : list num)
  (pspin : PSpin num) (w : world num) :
  let run := fun returnPars =>
    NormNLD.chi2_disc_ext distibution (A :: alpha :: T :: D0 :: rest)
      nldModel data_low data_high levels_smoothed pspin returnPars w in
  let nld_Sn := nld_at_Sn distibution D0 pspin in
  let Eshift := NormNLD.EshiftFromT T nld_Sn in
  let w_spin :=
    mkWorld
      (trace w ++ map (fun J => EvSpinFunctions (Sn pspin) J
                                  (spincutModel pspin) (spincutPars pspin))
                      (spin_channels (J_target pspin)))
      (draws w) in
  (exists e w', forall returnPars, run returnPars = (Raise e, w'))
  \/ (exists chi2, forall returnPars,
        run returnPars
        = (Ok (if returnPars then NormNLD.Chi2Pars chi2 nld_Sn Eshift
               else NormNLD.Chi2 chi2), w_spin)).
Proof.
  intros run nld_Sn Eshift w_spin. subst run.
  unfold NormNLD.chi2_disc_ext.
  destruct (broadcast Np.subtract (col1 (NormNLD.normalize data_low A alpha))
              levels_smoothed) as [chi2a|e] eqn:Ea.
  2:{ left. exists e, w. intros rp. apply bind_raise. reflexivity. }
  destruct (if Nat.eqb (shape1 (NormNLD.normalize data_low A alpha)) 3
            then broadcast_inplace Np.divide (map Np.square chi2a)
                   (map Np.square (col2 (NormNLD.normalize data_low A alpha)))
            else Ok (map Np.square chi2a)) as [chi2b|e] eqn:Eb.
  2:{ left. exists e, w. intros rp.
      erewrite bind_run by reflexivity.
      apply bind_raise. rewrite weights_run, Eb. reflexivity. }
  destruct (broadcast Np.subtract (col1 (NormNLD.normalize data_high A alpha))
              (map (fun E => nldModel (Fin E) T Eshift)
                   (col0 (NormNLD.normalize data_high A alpha))))
    as [chi2c|e] eqn:Ec.
  2:{ left. exists e, w_spin. intros rp.
      erewrite bind_run by reflexivity.
      erewrite bind_run by (rewrite weights_run, Eb; reflexivity).
      erewrite bind_run by (apply nldSn_from_D0_run).
      fold nld_Sn. fold Eshift. fold w_spin.
      apply bind_raise. rewrite Ec. reflexivity. }
  destruct (if Nat.eqb (shape1 (NormNLD.normalize data_high A alpha)) 3
            then broadcast_inplace Np.divide (map Np.square chi2c)
                   (map Np.square (col2 (NormNLD.normalize data_high A alpha)))
            else Ok (map Np.square chi2c)) as [chi2d|e] eqn:Ed.
  2:{ left. exists e, w_spin. intros rp.
      erewrite bind_run by reflexivity.
      erewrite bind_run by (rewrite weights_run, Eb; reflexivity).
      erewrite bind_run by (apply nldSn_from_D0_run).
      fold nld_Sn. fold Eshift. fold w_spin.
      erewrite bind_run by (rewrite Ec; reflexivity).
      apply bind_raise. rewrite weights_run, Ed. reflexivity. }
  right. exists (Np.sum chi2b + Np.sum chi2d)%num. intros rp.
  erewrite bind_run by reflexivity.
  erewrite bind_run by (rewrite weights_run, Eb; reflexivity).
  erewrite bind_run by (apply nldSn_from_D0_run).
  fold nld_Sn. fold Eshift. fold w_spin.
  erewrite bind_run by (rewrite Ec; reflexivity).
  erewrite bind_run by (rewrite weights_run, Ed; reflexivity).
  destruct rp; reflexivity.
Qed.

(** X11.  [returnPars] changes the shape of the result alone: with it
    [chi2_disc_ext] returns [(chi2, (nld_Sn, Eshift))] exactly when
    without it it returns the same [chi2], [nld_Sn] being the level
    density at [Sn] for the [D0] of the parameter array and [Eshift] the
    shift for its [T]. *)
Theorem chi2_disc_ext_returnPars
  (distibution : num -> num -> option string -> list (string * num) -> num)
  (A alpha T D0 : num) (rest : list num) (nldModel : nld_model)
  (data_low data_high : curve) (levels_smoothed : list num)
  (pspin : PSpin num) (w : world num) (chi2 : num) :
  let run := fun returnPars =>
    fst (NormNLD.chi2_disc_ext distibution (A :: alpha :: T :: D0 :: rest)
           nldModel data_low data_high levels_smoothed pspin returnPars w) in
  let nld_Sn := nld_at_Sn distibution D0 pspin in
  run false = Ok (NormNLD.Chi2 chi2)
  <-> run true
      = Ok (NormNLD.Chi2Pars chi2 nld_Sn (NormNLD.EshiftFromT T nld_Sn)).
Proof.
  intros run nld_Sn. subst run. cbv beta.
  destruct (chi2_disc_ext_steps distibution A alpha T D0 rest nldModel
              data_low data_high levels_smoothed pspin w)
    as [(e & w' & He)|(c & Hc)]; cbv zeta beta in *.
  - rewrite !He. cbn. split; discriminate.
  - rewrite !Hc. cbn. split; intros H; injection H as <-; reflexivity.
Qed.

(** X12.  The only collaborator that [chi2_disc_ext] calls is the spin
    distribution: when it returns, the trace has gained the calls at the
    spin channels of [J_target], at [Ex = Sn], and nothing else, and no
    random number was drawn. *)
Theorem chi2_disc_ext_calls
  (distibution : num -> num -> option string -> list (string * num) -> num)
  (x : list num) (nldModel : nld_model) (data_low data_high : curve)
  (levels_smoothed : list num) (pspin : PSpin num) (returnPars : bool)
  (w w' : world num) (r : NormNLD.chi2_result) :
  NormNLD.chi2_disc_ext distibution x nldModel data_low data_high
    levels_smoothed pspin returnPars w = (Ok r, w') ->
  w' = mkWorld
         (trace w ++ map (fun J => EvSpinFunctions (Sn pspin) J
                                     (spincutModel pspin) (spincutPars pspin))
                         (spin_channels (J_target pspin)))
         (draws w).
Proof.
  destruct x as [|A [|alpha [|T [|D0 rest]]]]; try (cbn; discriminate).
  intros H.
  destruct (chi2_disc_ext_steps distibution A alpha T D0 rest nldModel
              data_low data_high levels_smoothed pspin w)
    as [(e & w1 & He)|(c & Hc)]; cbv zeta beta in *.
  - rewrite He in H. discriminate.
  - rewrite Hc in H. injection H as _ <-. reflexivity.
Qed.

Lemma chi2_disc_ext_calls_witness :
  let run :=
    NormNLD.chi2_disc_ext (fun _ _ _ _ => Fin 1)
      [Fin 1; Fin 0; Fin 1; Fin 1] (fun _ _ _ => Fin 5)
      (Cols2 []) (Cols2 []) [] (mkPSpin (Fin 8) (Fin 0) None []) false w0 in
  fst run = Ok (NormNLD.Chi2 (Fin 0 + Fin 0)%num)
  /\ snd run
     = mkWorld
         ([] ++ map (fun J => EvSpinFunctions (Fin 8) J None [])
                    (spin_channels (Fin 0)))
         0.
Proof.
  intros run.
  assert (E : run = (fst run, snd run)) by (destruct run; reflexivity).
  assert (F : fst run = Ok (NormNLD.Chi2 (Fin 0 + Fin 0)%num)).
  { apply chi2_disc_ext_run. reflexivity. }
  split; [exact F|].
  rewrite F in E.
  exact (chi2_disc_ext_calls _ _ _ _ _ _ _ _ _ _ _ E).
Defined.

(** ** Extrapolation *)

(** Every outcome of [extrapolate], with the dict as it leaves it. *)
Lemma extrapolate_cases (model : string) (pars : PExt) (w : world num) :
  NormNLD.extrapolate model (pars, w)
  = match px_ext_range pars with
    | None => (Raise (KeyError "ext_range"), (pars, w))
    | Some ext_range =>
        let Earr := linspace (fst ext_range) (snd ext_range) 50 in
        if String.eqb model "CT" then
          match px_T pars, px_Eshift pars with
          | Some T, Some Eshift =>
              (Ok (combine Earr
                     (map (fun E => NormNLD.CT (Fin E) T Eshift) Earr)),
               (NormNLD.pext_set_Earr Earr pars, w))
          | _, _ =>
              (Raise (TypeError
                        "Error: Need following arguments for this method"),
               (NormNLD.pext_set_Earr Earr pars, w))
          end
        else
          (Raise (TypeError "Error: NLD model not supported; check spelling"),
           (pars, w))
    end.
Proof.
  destruct (px_ext_range pars) as [ext_range|] eqn:Hr.
  2:{ unfold NormNLD.extrapolate.
      erewrite bind_run by reflexivity.
      apply bind_raise. rewrite Hr. reflexivity. }
  cbv zeta.
  destruct (String.eqb model "CT") eqn:Hm.
  2:{ exact (extrapolate_unsupported_model model pars ext_range w Hm Hr). }
  apply String.eqb_eq in Hm. subst model.
  destruct (px_T pars) as [T|] eqn:HT; destruct (px_Eshift pars) as [Es|] eqn:HE.
  1:{ exact (extrapolate_CT_run pars ext_range T Es w Hr HT HE). }
  all: unfold NormNLD.extrapolate;
    erewrite bind_run by reflexivity;
    erewrite bind_run by (apply getitem_run; eassumption);
    cbn [String.eqb Ascii.eqb Bool.eqb];
    rewrite !andb_false_r;
    apply bind_raise;
    erewrite bind_run by reflexivity;
    erewrite bind_run by reflexivity;
    erewrite bind_run by reflexivity;
    unfold NormNLD.call_model;
    cbn [NormNLD.pext_set_Earr px_T px_Eshift px_Earr];
    rewrite HT, HE; reflexivity.
Qed.




(** X13.  Without the key [ext_range], [extrapolate] raises [KeyError]
    whatever the model, a supported one or not, and leaves the dict and
    the world as they were. *)
Theorem extrapolate_missing_ext_range (model : string) (pars : PExt)
  (w : world num) :
  px_ext_range pars = None ->
  NormNLD.extrapolate model (pars, w)
  = (Raise (KeyError "ext_range"), (pars, w)).
Proof. intros Hr. rewrite extrapolate_cases, Hr. reflexivity. Qed.

Lemma extrapolate_missing_ext_range_witness :
  NormNLD.extrapolate "BSFG"
    (mkPExt None (Some (Fin 1)) (Some (Fin 0)) None None, w0)
  = (Raise (KeyError "ext_range"),
     (mkPExt None (Some (Fin 1)) (Some (Fin 0)) None None, w0)).
Proof. apply extrapolate_missing_ext_range. reflexivity. Defined.



(** X15.  Whatever its outcome, [extrapolate] changes no key of the dict
    but [Earr]: [ext_range], [T], [Eshift] and [nld_Sn] are as they were;
    and it calls nothing and draws no random number. *)
Theorem extrapolate_keeps_pars (model : string) (pars : PExt)
  (w : world num) :
  let out := NormNLD.extrapolate model (pars, w) in
  let pars' := fst (snd out) in
  px_ext_range pars' = px_ext_range pars
  /\ px_T pars' = px_T pars
  /\ px_Eshift pars' = px_Eshift pars
  /\ px_nld_Sn pars' = px_nld_Sn pars
  /\ snd (snd out) = w.
Proof.
  cbv zeta. rewrite extrapolate_cases.
  destruct (px_ext_range pars) as [ext_range|] eqn:Hr.
  2:{ cbn [fst snd]. rewrite Hr. repeat split. }
  cbv zeta.
  destruct (String.eqb model "CT").
  2:{ cbn [fst snd]. rewrite Hr. repeat split. }
  destruct (px_T pars) as [T|] eqn:HT;
    destruct (px_Eshift pars) as [Es|] eqn:HE;
    cbn [fst snd NormNLD.pext_set_Earr px_ext_range px_T px_Eshift px_nld_Sn];
    rewrite ?Hr, ?HT, ?HE; repeat split.
Qed.

(** X16.  [extrapolate] never derives the shift: on a dict that holds [T]
    and [nld_Sn] but no [Eshift], the condition
    [("nld_Sn" in pars) and ("Eshift" in pars == False)] is false, no
    [Eshift] is stored, and the call of the model fails with a
    [TypeError] for the missing parameter. *)
Theorem extrapolate_never_derives_Eshift (pars : PExt) (ext_range : R * R)
  (T : num) (nld_Sn : num * num) (w : world num) :
  px_ext_range pars = Some ext_range ->
  px_T pars = Some T ->
  px_nld_Sn pars = Some nld_Sn ->
  px_Eshift pars = None ->
  exists pars',
    NormNLD.extrapolate "CT" (pars, w)
    = (Raise (TypeError "Error: Need following arguments for this method"),
       (pars', w))
    /\ px_Eshift pars' = None.
Proof.
  intros Hr HT HS HE. rewrite extrapolate_cases, Hr, HT, HE.
  cbv zeta. cbn [String.eqb Ascii.eqb Bool.eqb].
  eexists. split; [reflexivity|].
  cbn [NormNLD.pext_set_Earr px_Eshift]. exact HE.
Qed.

Lemma extrapolate_never_derives_Eshift_witness :
  exists pars',
    NormNLD.extrapolate "CT"
      (mkPExt (Some (0, 20)) (Some (Fin 1)) None (Some (Fin 8, Fin 1000))
         None, w0)
    = (Raise (TypeError "Error: Need following arguments for this method"),
       (pars', w0))
    /\ px_Eshift pars' = None.
Proof.
  apply (extrapolate_never_derives_Eshift
           (mkPExt (Some (0, 20)) (Some (Fin 1)) None
              (Some (Fin 8, Fin 1000)) None)
           (0, 20) (Fin 1) (Fin 8, Fin 1000) w0); reflexivity.
Defined.

(** ** What the methods leave alone *)

Section Respects.

Context {S : Type} (R : S -> S -> Prop).
Hypothesis R_refl : forall s, R s s.
Hypothesis R_trans : forall a b c, R a b -> R b c -> R a c.

Lemma respects_ret {A : Type} (a : A) : respects R (ret a).
Proof. intros s. apply R_refl. Qed.

Lemma respects_raise {A : Type} (e : exn) : respects R (@raise S A e).
Proof. intros s. apply R_refl. Qed.

Lemma respects_of_result {A : Type} (r : result A) :
  respects R (@of_result S A r).
Proof. intros s. rewrite of_result_run. apply R_refl. Qed.

Lemma respects_getitem {A : Type} (key : string) (v : option A) :
  respects R (@getitem S A key v).
Proof. destruct v; intros s; apply R_refl. Qed.

Lemma respects_index {A : Type} (a : list A) (i : nat) :
  respects R (@index S A a i).
Proof. intros s. unfold index. destruct (nth_error a i); apply R_refl. Qed.

Lemma respects_bind {A B : Type} (m : St S A) (k : A -> St S B) :
  respects R m -> (forall a, respects R (k a)) -> respects R (bind m k).
Proof.
  intros Hm Hk s. unfold bind. specialize (Hm s).
  destruct (m s) as [[a|e] s1]; cbn [snd] in *.
  - eapply R_trans; [exact Hm|apply Hk].
  - exact Hm.
Qed.

Lemma respects_mapM {A B : Type} (f : A -> St S B) (l : list A) :
  (forall a, respects R (f a)) -> respects R (mapM f l).
Proof.
  intros Hf. induction l as [|a l IH]; cbn [mapM].
  - apply respects_ret.
  - apply respects_bind; [apply Hf|]. intros b.
    apply respects_bind; [exact IH|]. intros bs. apply respects_ret.
Qed.

Lemma respects_call_model {A : Type} (fn : St S A) (present : list bool) :
  respects R fn -> respects R (NormNLD.call_model fn present).
Proof.
  intros H. unfold NormNLD.call_model.
  destruct (forallb _ present); [exact H|apply respects_raise].
Qed.

End Respects.

Section RespectsSelf.

Variable Q : NormNLD.Self -> NormNLD.Self -> Prop.
Hypothesis Q_refl : forall self, Q self self.

Lemma respects_get_self : respects (on_self Q) NormNLD.get_self.
Proof. intros [self w]. apply Q_refl. Qed.

Lemma respects_static {A : Type} (m : M num A) :
  respects (on_self Q) (NormNLD.static m).
Proof.
  intros [self w]. unfold on_self. cbn. destruct (m w). apply Q_refl.
Qed.

Lemma respects_update (f : NormNLD.Self -> NormNLD.Self) :
  (forall self, Q self (f self)) -> respects (on_self Q) (NormNLD.update f).
Proof. intros Hf [self w]. apply Hf. Qed.

Lemma respects_get_discretes (ext : Externals) (Emids : list R)
  (resolution : R) :
  respects (on_self Q) (NormNLD.get_discretes ext Emids resolution).
Proof. intros [self w]. rewrite get_discretes_run. apply Q_refl. Qed.

End RespectsSelf.

Lemma on_self_refl (Q : NormNLD.Self -> NormNLD.Self -> Prop) :
  (forall self, Q self self) -> forall s, on_self Q s s.
Proof. intros H s. apply H. Qed.

Lemma on_self_trans (Q : NormNLD.Self -> NormNLD.Self -> Prop) :
  (forall a b c, Q a b -> Q b c -> Q a c) ->
  forall a b c, on_self Q a b -> on_self Q b c -> on_self Q a c.
Proof. intros H a b c. apply H. Qed.

Lemma same_inputs_refl (self : NormNLD.Self) : same_inputs self self.
Proof. repeat split. Qed.

Lemma same_inputs_trans (a b c : NormNLD.Self) :
  same_inputs a b -> same_inputs b c -> same_inputs a c.
Proof.
  unfold same_inputs.
  intros (A1 & A2 & A3 & A4 & A5 & A6 & A7 & A8)
         (B1 & B2 & B3 & B4 & B5 & B6 & B7 & B8).
  repeat split; etransitivity; eassumption.
Qed.

Lemma only_nld_norm_refl (self : NormNLD.Self) : only_nld_norm self self.
Proof. exists (NormNLD.self_nld_norm self). destruct self. reflexivity. Qed.

Lemma only_nld_norm_trans (a b c : NormNLD.Self) :
  only_nld_norm a b -> only_nld_norm b c -> only_nld_norm a c.
Proof. intros [v ->] [v' ->]. exists v'. reflexivity. Qed.

Lemma extrapolate_ext_range (model : string) (pars : PExt) (w : world num) :
  px_ext_range (fst (snd (NormNLD.extrapolate model (pars, w))))
  = px_ext_range pars.
Proof.
  rewrite extrapolate_cases.
  destruct (px_ext_range pars) as [ext_range|] eqn:Hr.
  2:{ cbn [fst snd]. exact Hr. }
  cbv zeta.
  destruct (String.eqb model "CT"); [|cbn [fst snd]; exact Hr].
  destruct (px_T pars); [destruct (px_Eshift pars)|];
    cbn [fst snd NormNLD.pext_set_Earr px_ext_range]; exact Hr.
Qed.

Lemma same_inputs_extrapolate (model : string) :
  respects (on_self same_inputs) (NormNLD.on_pext (NormNLD.extrapolate model)).
Proof.
  intros [self w]. unfold on_self, NormNLD.on_pext.
  pose proof (extrapolate_ext_range model (NormNLD.self_pext self) w) as H.
  destruct (NormNLD.extrapolate model (NormNLD.self_pext self, w))
    as [r [pext w']].
  cbn [fst snd] in *. unfold same_inputs. cbn. repeat split. exact H.
Qed.

(** One step of a proof that a method respects a relation on the object. *)
Ltac respects_step refl trans :=
  first
    [ apply (respects_bind _ (on_self_trans _ trans)); [|intros ?]
    | apply (respects_get_self _ refl)
    | apply (respects_static _ refl)
    | apply (respects_get_discretes _ refl)
    | apply (respects_ret _ (on_self_refl _ refl))
    | apply (respects_raise _ (on_self_refl _ refl))
    | apply (respects_of_result _ (on_self_refl _ refl))
    | apply (respects_getitem _ (on_self_refl _ refl))
    | apply (respects_index _ (on_self_refl _ refl))
    | apply (respects_call_model _ (on_self_refl _ refl))
    | match goal with
      | |- respects _ (match ?x with _ => _ end) => destruct x
      end ].

Lemma same_inputs_norm_2points :
  respects (on_self same_inputs) NormNLD.norm_2points.
Proof.
  unfold NormNLD.norm_2points.
  repeat respects_step same_inputs_refl same_inputs_trans.
Qed.

Lemma same_inputs_find_norm (ext : Externals) :
  respects (on_self same_inputs) (NormNLD.find_norm ext).
Proof.
  unfold NormNLD.find_norm.
  repeat first
    [ respects_step same_inputs_refl same_inputs_trans
    | apply same_inputs_extrapolate
    | apply respects_update; intros self0; unfold same_inputs; cbn;
      repeat split ].
Qed.

Lemma same_inputs_normalize_scanning_samples (ext : Externals) (popt : Popt)
  (samples : Samples) :
  respects (on_self same_inputs)
    (NormNLD.normalize_scanning_samples ext popt samples).
Proof.
  unfold NormNLD.normalize_scanning_samples.
  repeat first
    [ respects_step same_inputs_refl same_inputs_trans
    | apply (respects_mapM _ (on_self_refl _ same_inputs_refl)
               (on_self_trans _ same_inputs_trans)); intros ?
    | apply respects_update; intros self0; unfold same_inputs; cbn;
      repeat split ].
Qed.

Lemma same_inputs___init__ (ext : Externals) :
  respects (on_self same_inputs) (NormNLD.__init__ ext).
Proof.
  unfold NormNLD.__init__, NormNLD.init_method.
  repeat first
    [ apply same_inputs_extrapolate
    | apply same_inputs_norm_2points
    | apply same_inputs_find_norm
    | apply same_inputs_normalize_scanning_samples
    | apply respects_update; intros self0; unfold same_inputs; cbn;
      repeat split
    | respects_step same_inputs_refl same_inputs_trans ].
Qed.

(** X17.  Whatever the outcome of the constructor, a normalised object or
    an exception on the way, the object holds the table [nld], the
    [method], the dicts [pnorm] and [pspin], the model name, [D0] and the
    file name it was given, and [pext] holds the [ext_range] it was
    given: no method replaces or changes them. *)
Theorem construct_keeps_inputs (ext : Externals) (nld : curve)
  (method : string) (pnorm : PNorm) (nldModel : string) (pext : PExt)
  (pspin : PSpin num) (D0 : num) (fname_discretes : string)
  (w : world num) :
  let self' :=
    fst (snd (NormNLD.construct ext nld method pnorm nldModel pext pspin D0
                fname_discretes w)) in
  NormNLD.self_nld self' = nld
  /\ NormNLD.self_method self' = method
  /\ NormNLD.self_pnorm self' = pnorm
  /\ NormNLD.self_nldModel self' = nldModel
  /\ NormNLD.self_pspin self' = pspin
  /\ NormNLD.self_D0 self' = D0
  /\ NormNLD.self_fname_discretes self' = fname_discretes
  /\ px_ext_range (NormNLD.self_pext self') = px_ext_range pext.
Proof.
  exact (same_inputs___init__ ext
           (NormNLD.fresh nld method pnorm nldModel pext pspin D0
              fname_discretes, w)).
Qed.

Lemma only_nld_norm_normalize_scanning_samples (ext : Externals)
  (popt : Popt) (samples : Samples) :
  respects (on_self only_nld_norm)
    (NormNLD.normalize_scanning_samples ext popt samples).
Proof.
  unfold NormNLD.normalize_scanning_samples.
  repeat first
    [ respects_step only_nld_norm_refl only_nld_norm_trans
    | apply (respects_mapM _ (on_self_refl _ only_nld_norm_refl)
               (on_self_trans _ only_nld_norm_trans)); intros ?
    | apply respects_update; intros self0; eexists; reflexivity ].
Qed.

(** X18.  Whatever its outcome, [normalize_scanning_samples] changes no
    attribute of the object but [nld_norm]: the table, the fit results
    [A_norm], [alpha_norm] and [T], the stored samples, [pext] and the
    extrapolation are as they were. *)
Theorem normalize_scanning_samples_only_nld_norm (ext : Externals)
  (popt : Popt) (samples : Samples) (self : NormNLD.Self) (w : world num) :
  exists v,
    fst (snd (NormNLD.normalize_scanning_samples ext popt samples (self, w)))
    = NormNLD.set_nld_norm v self.
Proof.
  exact (only_nld_norm_normalize_scanning_samples ext popt samples (self, w)).
Qed.

(** ** The fit *)


Lemma lookup_dict_set_other {A : Type} (key key' : string) (v : A)
  (d : list (string * A)) :
  String.eqb key key' = false ->
  lookup key' (dict_set key v d) = lookup key' d.
Proof.
  intros Hne. induction d as [|[k v'] d IH]; cbn [dict_set lookup].
  - rewrite Hne. reflexivity.
  - destruct (String.eqb k key) eqn:Hk; cbn [lookup].
    + apply String.eqb_eq in Hk. subst k. rewrite Hne. reflexivity.
    + rewrite IH. reflexivity.
Qed.


(** X19.  When one of the window bounds [E1_low], [E2_low], [E1_high],
    [E2_high] is missing from [pnorm], [find_norm] raises [KeyError] for
    the first missing one before it calls anything: the object and the
    world are as they were. *)
Theorem find_norm_missing_window_key (ext : Externals) (self : NormNLD.Self)
  (w : world num) :
  let pnorm := NormNLD.self_pnorm self in
  let keys :=
    [("E1_low", pn_E1_low pnorm); ("E2_low", pn_E2_low pnorm);
     ("E1_high", pn_E1_high pnorm); ("E2_high", pn_E2_high pnorm)]%string in
  forall key before after,
    keys = before ++ (key, None) :: after ->
    Forall (fun kv => snd kv <> None) before ->
    NormNLD.find_norm ext (self, w) = (Raise (KeyError key), (self, w)).
Proof.
  intros pnorm keys key before after Hk Hb. subst keys pnorm.
  unfold NormNLD.find_norm. rewrite get_self_run.
  destruct (pn_E1_low (NormNLD.self_pnorm self)) as [e1|] eqn:H1.
  2:{ destruct before as [|[k v] before].
      - injection Hk as <- _. reflexivity.
      - injection Hk as <- <- _. inversion Hb as [|? ? Hv _]. now elim Hv. }
  erewrite bind_run by reflexivity.
  destruct (pn_E2_low (NormNLD.self_pnorm self)) as [e2|] eqn:H2.
  2:{ destruct before as [|? [|[k v] before]].
      - discriminate.
      - injection Hk as _ <- _. reflexivity.
      - injection Hk as _ <- <- _.
        inversion Hb as [|? ? _ Hb']. inversion Hb' as [|? ? Hv _].
        now elim Hv. }
  erewrite bind_run by reflexivity.
  destruct (pn_E1_high (NormNLD.self_pnorm self)) as [e3|] eqn:H3.
  2:{ destruct before as [|? [|? [|[k v] before]]].
      - discriminate.
      - discriminate.
      - injection Hk as _ _ <- _. reflexivity.
      - injection Hk as _ _ <- <- _.
        inversion Hb as [|? ? _ Hb']. inversion Hb' as [|? ? _ Hb''].
        inversion Hb'' as [|? ? Hv _]. now elim Hv. }
  erewrite bind_run by reflexivity.
  destruct (pn_E2_high (NormNLD.self_pnorm self)) as [e4|] eqn:H4.
  2:{ destruct before as [|? [|? [|? [|[k v] before]]]].
      - discriminate.
      - discriminate.
      - discriminate.
      - injection Hk as _ _ _ <- _. reflexivity.
      - injection Hk as _ _ _ _ Hk. destruct before; discriminate. }
  exfalso.
  destruct before as [|? [|? [|? [|? before]]]]; try discriminate.
  injection Hk as _ _ _ _ Hk. destruct before; discriminate.
Qed.

Lemma find_norm_missing_window_key_witness :
  let ext :=
    mkExternals (fun _ _ _ _ => Fin 1)
      (fun Emids _ _ => (map (fun _ => Fin 1) Emids, []))
      (fun _ _ => [Fin 1; Fin 0; Fin 1; Fin 1])
      (fun _ _ => (mkPopt (Fin 1, Fin 0) (Fin 0, Fin 0) (Fin 1, Fin 0)
                     (Fin 1, Fin 0), []))
      (fun _ n => seq 0 n) (fun _ _ => 0) in
  let pnorm :=
    mkPNorm None None (Some 1) None (Some 2) None
      (Some [(0, 10); (0, 3); (0, 1); (0, 5)]) in
  let self :=
    NormNLD.fresh (Cols2 [(1, Fin 2); (2, Fin 3); (3, Fin 5)]) "find_norm"
      pnorm "CT" (mkPExt (Some (1, 8)) None None None None)
      (mkPSpin (Fin 8) (Fin 0) None []) (Fin 1) "levels.txt" in
  NormNLD.find_norm ext (self, w0) = (Raise (KeyError "E2_low"), (self, w0)).
Proof.
  intros ext pnorm self.
  apply (find_norm_missing_window_key ext self w0 "E2_low"
           [("E1_low"%string, Some 1)]
           [("E1_high"%string, Some 2); ("E2_high"%string, None)]).
  - reflexivity.
  - repeat constructor. discriminate.
Defined.

Lemma nearest_empty (ext : Externals) (nld : curve) (E : R) :
  len nld = 0%nat ->
  NormNLD.nearest ext nld E
  = Raise (ValueError "attempt to get argmin of an empty sequence").
Proof.
  intros H. unfold NormNLD.nearest.
  rewrite <- col0_length in H.
  destruct (col0 nld); [reflexivity|discriminate].
Qed.

(** X20.  On a table without rows, [find_norm] with its four window
    bounds given raises the [ValueError] of [argmin] on an empty
    sequence, before it reads the discrete levels: the object and the
    world are as they were. *)
Theorem find_norm_empty_table (ext : Externals) (self : NormNLD.Self)
  (w : world num) (E1_low E2_low E1_high E2_high : R) :
  let pnorm := NormNLD.self_pnorm self in
  pn_E1_low pnorm = Some E1_low ->
  pn_E2_low pnorm = Some E2_low ->
  pn_E1_high pnorm = Some E1_high ->
  pn_E2_high pnorm = Some E2_high ->
  len (NormNLD.self_nld self) = 0%nat ->
  NormNLD.find_norm ext (self, w)
  = (Raise (ValueError "attempt to get argmin of an empty sequence"),
     (self, w)).
Proof.
  intros pnorm H1 H2 H3 H4 Hlen. subst pnorm.
  unfold NormNLD.find_norm. do 5 run_step.
  apply bind_raise. rewrite of_result_run, nearest_empty by exact Hlen.
  reflexivity.
Qed.

Lemma find_norm_empty_table_witness :
  let ext :=
    mkExternals (fun _ _ _ _ => Fin 1)
      (fun Emids _ _ => (map (fun _ => Fin 1) Emids, []))
      (fun _ _ => [Fin 1; Fin 0; Fin 1; Fin 1])
      (fun _ _ => (mkPopt (Fin 1, Fin 0) (Fin 0, Fin 0) (Fin 1, Fin 0)
                     (Fin 1, Fin 0), []))
      (fun _ n => seq 0 n) (fun _ _ => 0) in
  let pnorm :=
    mkPNorm None None (Some 1) (Some 3) (Some 2) (Some 3)
      (Some [(0, 10); (0, 3); (0, 1); (0, 5)]) in
  let self :=
    NormNLD.fresh (Cols2 []) "find_norm"
      pnorm "CT" (mkPExt (Some (1, 8)) None None None None)
      (mkPSpin (Fin 8) (Fin 0) None []) (Fin 1) "levels.txt" in
  NormNLD.find_norm ext (self, w0)
  = (Raise (ValueError "attempt to get argmin of an empty sequence"),
     (self, w0)).
Proof.
  intros ext pnorm self.
  apply (find_norm_empty_table ext self w0 1 3 2 3); reflexivity.
Defined.



(** ** The normalised table *)

(** The run of [normalize_scanning_samples] on a table of two columns. *)
Lemma normalize_scanning_samples_run2 (ext : Externals)
  (popt : Popt) (key : string) (value : list num) (rest : Samples)
  (self : NormNLD.Self) (w : world num) (A_norm alpha_norm : num) :
  shape1 (NormNLD.self_nld self) = 2%nat ->
  NormNLD.self_A_norm self = Some A_norm ->
  NormNLD.self_alpha_norm self = Some alpha_norm ->
  NormNLD.normalize_scanning_samples ext popt ((key, value) :: rest)
    (self, w)
  = (Ok tt,
     (NormNLD.set_nld_norm
        (Some (NormNLD.normalize (NormNLD.self_nld self) A_norm alpha_norm))
        self,
      mkWorld (trace w ++ [EvShuffle (length value)]) (S (draws w)))).
Proof.
  intros Hs HA Ha. unfold NormNLD.normalize_scanning_samples.
  rewrite get_self_run.
  erewrite bind_run by reflexivity.
  erewrite bind_run by reflexivity.
  rewrite Hs. cbn [Nat.eqb].
  erewrite bind_run by reflexivity.
  rewrite get_self_run, HA, Ha.
  erewrite bind_run by reflexivity.
  erewrite bind_run by reflexivity.
  reflexivity.
Qed.

(** X22.  On a table without uncertainties, with the fit results
    [A_norm] and [alpha_norm] set, the samples matter to
    [normalize_scanning_samples] only through the length of their first
    entry: with an empty dict the loop that reads the number of samples
    binds nothing and [UnboundLocalError] is raised, the object and the
    world being as they were; otherwise the sample indices are shuffled,
    nothing else is called, no realization of the table is drawn, and the
    table transformed by [(A_norm, alpha_norm)] is stored. *)
Theorem normalize_scanning_samples_two_columns (ext : Externals)
  (popt : Popt) (samples : Samples) (self : NormNLD.Self) (w : world num)
  (A_norm alpha_norm : num) :
  shape1 (NormNLD.self_nld self) = 2%nat ->
  NormNLD.self_A_norm self = Some A_norm ->
  NormNLD.self_alpha_norm self = Some alpha_norm ->
  NormNLD.normalize_scanning_samples ext popt samples (self, w)
  = match samples with
    | [] => (Raise (UnboundLocalError "N_samples"), (self, w))
    | (key, value) :: _ =>
        (Ok tt,
         (NormNLD.set_nld_norm
            (Some (NormNLD.normalize (NormNLD.self_nld self) A_norm
                     alpha_norm))
            self,
          mkWorld (trace w ++ [EvShuffle (length value)]) (S (draws w))))
    end.
Proof.
  intros Hs HA Ha. destruct samples as [|[key value] rest].
  - reflexivity.
  - apply normalize_scanning_samples_run2; assumption.
Qed.

Lemma normalize_scanning_samples_two_columns_witness :
  let ext :=
    mkExternals (fun _ _ _ _ => Fin 1)
      (fun Emids _ _ => (map (fun _ => Fin 1) Emids, []))
      (fun _ _ => [Fin 1; Fin 0; Fin 1; Fin 1])
      (fun _ _ => (mkPopt (Fin 1, Fin 0) (Fin 0, Fin 0) (Fin 1, Fin 0)
                     (Fin 1, Fin 0), []))
      (fun _ n => seq 0 n) (fun _ _ => 0) in
  let popt := mkPopt (Fin 1, Fin 0) (Fin 0, Fin 0) (Fin 1, Fin 0)
                (Fin 1, Fin 0) in
  let nld := Cols2 [(1, Fin 2); (2, Fin 3)] in
  let self :=
    NormNLD.set_fit (Fin 2) (Fin 0) (Fin 1) []
      (NormNLD.fresh nld "find_norm"
         (mkPNorm None None None None None None None) "CT"
         (mkPExt None None None None None)
         (mkPSpin (Fin 8) (Fin 0) None []) (Fin 1) "levels.txt") in
  NormNLD.normalize_scanning_samples ext popt [("A"%string, [Fin 2])]
    (self, w0)
  = (Ok tt,
     (NormNLD.set_nld_norm
        (Some (NormNLD.normalize nld (Fin 2) (Fin 0))) self,
      mkWorld ([] ++ [EvShuffle 1]) 1)).
Proof.
  intros ext popt nld self.
  apply (normalize_scanning_samples_two_columns ext popt
           [("A"%string, [Fin 2])] self w0 (Fin 2) (Fin 0)); reflexivity.
Defined.

Lemma draws_bind {A B : Type} (n k : nat) (m : NormNLD.Method A)
  (f : A -> NormNLD.Method B) :
  draws_on_return n m -> (forall a, draws_on_return k (f a)) ->
  draws_on_return (n + k) (bind m f).
Proof.
  intros Hm Hf s b s'. unfold bind.
  destruct (m s) as [[a|e] s1] eqn:E; [|discriminate].
  intros H. apply Hm in E. apply Hf in H. lia.
Qed.

Lemma draws_same_world {A : Type} (m : NormNLD.Method A) :
  (forall s, snd (snd (m s)) = snd s) -> draws_on_return 0 m.
Proof.
  intros Hm s a s' H. specialize (Hm s). rewrite H in Hm. cbn [snd] in Hm.
  rewrite Hm. lia.
Qed.

Lemma draws_ret {A : Type} (a : A) :
  draws_on_return 0 (ret a : NormNLD.Method A).
Proof. apply draws_same_world. reflexivity. Qed.

Lemma draws_of_result {A : Type} (r : result A) :
  draws_on_return 0 (of_result r : NormNLD.Method A).
Proof. apply draws_same_world. intros s. rewrite of_result_run. reflexivity. Qed.

Lemma draws_getitem {A : Type} (key : string) (v : option A) :
  draws_on_return 0 (getitem key v : NormNLD.Method A).
Proof. apply draws_same_world. destruct v; reflexivity. Qed.

Lemma draws_index {A : Type} (a : list A) (i : nat) :
  draws_on_return 0 (index a i : NormNLD.Method A).
Proof.
  apply draws_same_world. intros s. unfold index.
  destruct (nth_error a i); reflexivity.
Qed.

Lemma draws_update (f : NormNLD.Self -> NormNLD.Self) :
  draws_on_return 0 (NormNLD.update f).
Proof. apply draws_same_world. intros [self w]. reflexivity. Qed.

Lemma draws_norm_rvs (ext : Externals) (loc scale : list num) :
  draws_on_return 1 (NormNLD.static (NormNLD.norm_rvs ext loc scale)).
Proof.
  intros [self w] a s' H. unfold NormNLD.static, NormNLD.norm_rvs in H.
  destruct (existsb NormNLD.negative scale); [discriminate|].
  injection H as _ <-. cbn. lia.
Qed.

Lemma draws_mapM {A B : Type} (f : A -> NormNLD.Method B) (l : list A) :
  (forall a, draws_on_return 1 (f a)) ->
  draws_on_return (length l) (mapM f l).
Proof.
  intros Hf. induction l as [|a l IH]; cbn [mapM length].
  - apply draws_ret.
  - change (S (length l)) with (1 + length l)%nat.
    apply draws_bind; [apply Hf|]. intros b.
    replace (length l) with (length l + 0)%nat by lia.
    apply draws_bind; [exact IH|]. intros bs. apply draws_ret.
Qed.

Lemma bind_getitem_Some {S A B : Type} (key : string) (a : A)
  (k : A -> St S B) :
  bind (getitem key (Some a)) k = k a.
Proof. reflexivity. Qed.

(** X23.  On a table with uncertainties, a returning
    [normalize_scanning_samples] has drawn one sample of the table for
    each of the first [min(100, len(samples["A"]))] shuffled indices and
    no more: after the shuffle, the random number generator was used that
    many times, however many samples there are. *)
Theorem normalize_scanning_samples_draws (ext : Externals) (popt : Popt)
  (samples : Samples) (self self' : NormNLD.Self) (w w' : world num) :
  shape1 (NormNLD.self_nld self) = 3%nat ->
  NormNLD.normalize_scanning_samples ext popt samples (self, w)
  = (Ok tt, (self', w')) ->
  exists samples_A,
    lookup "A" samples = Some samples_A
    /\ draws w' = (draws w + 1 + Nat.min 100 (length samples_A))%nat.
Proof.
  intros Hs. unfold NormNLD.normalize_scanning_samples.
  rewrite get_self_run.
  destruct samples as [|[key value] rest]; [discriminate|].
  erewrite bind_run by reflexivity.
  erewrite bind_run by reflexivity.
  rewrite Hs. cbn [Nat.eqb].
  destruct (lookup "A" ((key, value) :: rest)) as [samples_A|] eqn:HA;
    [|discriminate].
  rewrite bind_getitem_Some.
  intros H. exists samples_A. split; [reflexivity|].
  match type of H with
  | ?m _ = _ => eassert (D : draws_on_return _ m)
  end.
  { eapply draws_bind; [|intros ?; apply draws_ret].
    eapply draws_bind.
    { apply draws_mapM. intros i.
      change 1%nat with (0 + (1 + (0 + (0 + (0 + (0 + (0 + 0)))))))%nat.
      repeat first
        [ apply draws_bind; [|intros ?]
        | apply draws_index | apply draws_norm_rvs | apply draws_of_result
        | apply draws_getitem | apply draws_ret ]. }
    intros nld_samples.
    eapply draws_bind; [apply draws_of_result|]. intros ?.
    eapply draws_bind; [apply draws_of_result|]. intros ?.
    apply draws_update. }
  apply D in H. cbn [snd draws] in H. rewrite H, length_seq. lia.
Qed.

Lemma normalize_scanning_samples_draws_witness :
  let ext :=
    mkExternals (fun _ _ _ _ => Fin 1) (fun _ _ _ => ([], []))
      (fun _ _ => [])
      (fun _ _ => (mkPopt (Fin 2, Fin 0) (Fin 0, Fin 0) (Fin 1, Fin 0)
                     (Fin 1, Fin 0), []))
      (fun _ n => seq 0 n) (fun _ _ => 7) in
  let popt := mkPopt (Fin 2, Fin 1) (Fin 0, Fin 0) (Fin 1, Fin 0) (Fin 1, Fin 0) in
  let samples :=
    [("A"%string, [Fin 1; Fin 3]); ("alpha"%string, [Fin 0; Fin 0])] in
  let self :=
    NormNLD.fresh (Cols3 [(0, Fin 1, Fin 0)]) "find_norm"
      (mkPNorm None None None None None None None) "CT"
      (mkPExt None None None None None) (mkPSpin (Fin 8) (Fin 0) None [])
      (Fin 1) "levels.txt" in
  exists self' w',
    NormNLD.normalize_scanning_samples ext popt samples (self, w0)
    = (Ok tt, (self', w'))
    /\ draws w' = 3%nat.
Proof.
  intros ext popt samples self.
  eassert (H : NormNLD.normalize_scanning_samples ext popt samples (self, w0)
               = (Ok tt, (_, _))).
  { unfold NormNLD.normalize_scanning_samples. rewrite get_self_run.
    change (shape1 (NormNLD.self_nld self)) with 3%nat. cbn [Nat.eqb].
    run_rvs ext [(0, Fin 1, Fin 0)].
    reflexivity. }
  do 2 eexists. split; [exact H|].
  destruct (normalize_scanning_samples_draws ext popt samples self _ w0 _
              eq_refl H) as (samples_A & HA & Hd).
  injection HA as <-. exact Hd.
Defined.

(** ** The constructor *)

Lemma bind_raises {S A B : Type} (m : St S A) (k : A -> St S B) (s : S) :
  (forall a s1, exists e, fst (k a s1) = Raise e) ->
  exists e, fst (bind m k s) = Raise e.
Proof.
  intros Hk. unfold bind. destruct (m s) as [[a|e] s1]; [apply Hk|].
  exists e. reflexivity.
Qed.

(** The identity test fails between different strings. *)
Lemma ext_is_neq (ext : Externals) (a b : string) :
  a <> b -> ext_is ext a b = false.
Proof.
  intros Hab. destruct (ext_is ext a b) eqn:H; [|reflexivity].
  apply ext_is_eq in H. contradiction.
Qed.

(** The dispatch on the method [2points] ends in [raise], whether the
    identity test finds the literal or not. *)
Lemma init_method_2points_raises (ext : Externals) (self : NormNLD.Self)
  (w : world num) :
  NormNLD.self_method self = "2points"%string ->
  exists e, fst (NormNLD.init_method ext (self, w)) = Raise e.
Proof.
  intros Hm. unfold NormNLD.init_method. rewrite get_self_run, Hm.
  rewrite (ext_is_neq ext "2points" "find_norm") by discriminate.
  destruct (ext_is ext "2points" "2points"); [|eexists; reflexivity].
  apply bind_raises. intros [[nld_norm A_norm] alpha_norm] s1.
  apply bind_raises. intros nld_ext s2.
  apply bind_raises. intros [levels_smoothed other] s3.
  eexists. reflexivity.
Qed.

Lemma same_nld_norm_refl (self : NormNLD.Self) : same_nld_norm self self.
Proof. reflexivity. Qed.

Lemma same_nld_norm_trans (a b c : NormNLD.Self) :
  same_nld_norm a b -> same_nld_norm b c -> same_nld_norm a c.
Proof. unfold same_nld_norm. intros H1 H2. congruence. Qed.

Lemma same_nld_norm_init_2points (ext : Externals) (self : NormNLD.Self)
  (w : world num) :
  NormNLD.self_method self = "2points"%string ->
  NormNLD.self_nld_norm (fst (snd (NormNLD.init_method ext (self, w))))
  = NormNLD.self_nld_norm self.
Proof.
  intros Hm. unfold NormNLD.init_method. rewrite get_self_run, Hm.
  rewrite (ext_is_neq ext "2points" "find_norm") by discriminate.
  destruct (ext_is ext "2points" "2points"); [|reflexivity].
  assert (H : respects (on_self same_nld_norm)
                ('(nld_norm, A_norm, alpha_norm) <-
                   NormNLD.call_model NormNLD.norm_2points
                     [NormNLD.isSome (pn_nldE1 (NormNLD.self_pnorm self));
                      NormNLD.isSome (pn_nldE2 (NormNLD.self_pnorm self))] ;;
                 nld_ext <- NormNLD.on_pext
                              (NormNLD.extrapolate
                                 (NormNLD.self_nldModel self)) ;;
                 '(levels_smoothed, _) <-
                   NormNLD.get_discretes ext (col0 (NormNLD.self_nld self))
                     (1 / 10) ;;
                 raise (Exception_
                          "Need to work on the selection of levels here")
                 : NormNLD.Method unit)%monad).
  { unfold NormNLD.norm_2points.
    repeat first
      [ respects_step same_nld_norm_refl same_nld_norm_trans
      | match goal with
        | |- respects _ (NormNLD.on_pext _) =>
            intros [self0 w0']; unfold on_self, NormNLD.on_pext;
            destruct (NormNLD.extrapolate _ _) as [r [pext' w'']];
            reflexivity
        end ]. }
  exact (H (self, w)).
Qed.

(** X24.  The method [2points] never yields an object: whatever the
    table and the parameters, the constructor raises an exception, and
    no normalised table is stored. *)
Theorem construct_2points_raises (ext : Externals) (nld : curve)
  (pnorm : PNorm) (nldModel : string) (pext : PExt) (pspin : PSpin num)
  (D0 : num) (fname_discretes : string) (w : world num) :
  let out :=
    NormNLD.construct ext nld "2points" pnorm nldModel pext pspin D0
      fname_discretes w in
  (exists e, fst out = Raise e)
  /\ NormNLD.self_nld_norm (fst (snd out)) = None.
Proof.
  cbv zeta. unfold NormNLD.construct, NormNLD.__init__.
  rewrite get_self_run.
  destruct (any_gt _ 1000).
  - split; [eexists; reflexivity|reflexivity].
  - split.
    + apply init_method_2points_raises. reflexivity.
    + rewrite same_nld_norm_init_2points by reflexivity. reflexivity.
Qed.

(** X25.  A method name other than [2points] and [find_norm] is refused
    with a [TypeError] before anything is read or called: no attribute of
    the object is set and the world is as it was. *)
Theorem construct_unknown_method (ext : Externals) (nld : curve)
  (method : string) (pnorm : PNorm) (nldModel : string) (pext : PExt)
  (pspin : PSpin num) (D0 : num) (fname_discretes : string)
  (w : world num) :
  any_gt (col0 nld) 1000 = false ->
  method <> "2points"%string ->
  method <> "find_norm"%string ->
  NormNLD.construct ext nld method pnorm nldModel pext pspin D0
    fname_discretes w
  = (Raise (TypeError
              "Error: Normalization model not supported; check spelling"),
     (NormNLD.fresh nld method pnorm nldModel pext pspin D0 fname_discretes,
      w)).
Proof.
  intros Hu H2 Hf. unfold NormNLD.construct, NormNLD.__init__.
  rewrite get_self_run. cbn [NormNLD.fresh NormNLD.self_nld]. rewrite Hu.
  unfold NormNLD.init_method. rewrite get_self_run.
  cbn [NormNLD.self_method NormNLD.fresh].
  rewrite (ext_is_neq ext _ _ H2), (ext_is_neq ext _ _ Hf). reflexivity.
Qed.

Lemma construct_unknown_method_witness :
  let ext :=
    mkExternals (fun _ _ _ _ => Fin 1) (fun _ _ _ => ([], []))
      (fun _ _ => [])
      (fun _ _ => (mkPopt (Fin 2, Fin 0) (Fin 0, Fin 0) (Fin 1, Fin 0)
                     (Fin 1, Fin 0), []))
      (fun _ n => seq 0 n) (fun _ _ => 7) in
  let pnorm := mkPNorm None None None None None None None in
  let pext := mkPExt None None None None None in
  let pspin := mkPSpin (Fin 8) (Fin 0) None [] in
  NormNLD.construct ext (Cols2 [(1, Fin 2)]) "2Points" pnorm "CT" pext pspin
    (Fin 1) "levels.txt" w0
  = (Raise (TypeError
              "Error: Normalization model not supported; check spelling"),
     (NormNLD.fresh (Cols2 [(1, Fin 2)]) "2Points" pnorm "CT" pext pspin
        (Fin 1) "levels.txt", w0)).
Proof.
  intros ext pnorm pext pspin.
  apply construct_unknown_method.
  - apply any_gt_false. intros x [H|[]]. cbn in H. lra.
  - discriminate.
  - discriminate.
Defined.



(** ** Nearest energies and the two-point normalisation *)

(** X27.  For a bound [E] that is an energy of the table, the index that
    [find_norm] takes for it, [np.abs(nld[:, 0] - E).argmin()], is the
    index of this energy, the first one if the energy is repeated. *)
Theorem nearest_exact (ext : Externals) (nld : curve) (E : R) (i : nat) :
  In E (col0 nld) ->
  NormNLD.nearest ext nld E = Ok i ->
  nth_error (col0 nld) i = Some E
  /\ forall k, (k < i)%nat -> nth_error (col0 nld) k <> Some E.
Proof.
  intros HE H. unfold NormNLD.nearest in H.
  apply argmin_spec in H as (m & Hm & Hmin & Hfirst).
  rewrite nth_error_map in Hm.
  destruct (nth_error (col0 nld) i) as [Ei|] eqn:HEi; [|discriminate].
  cbn in Hm. injection Hm as <-.
  assert (HEE : ext_abs_diff ext E E = 0) by (apply ext_abs_diff_zero; reflexivity).
  assert (H0 : ext_abs_diff ext Ei E = 0).
  { apply Rle_antisym; [|apply ext_abs_diff_nonneg].
    rewrite <- HEE.
    apply Hmin. apply (in_map (fun Ex => ext_abs_diff ext Ex E)). exact HE. }
  split.
  - f_equal. apply (ext_abs_diff_zero ext). exact H0.
  - intros k Hk Hnth.
    specialize (Hfirst k (ext_abs_diff ext E E) Hk).
    rewrite nth_error_map, Hnth in Hfirst. specialize (Hfirst eq_refl).
    lra.
Qed.

Lemma nearest_exact_witness :
  let ext :=
    mkExternals (fun _ _ _ _ => Fin 1) (fun _ _ _ => ([], []))
      (fun _ _ => [])
      (fun _ _ => (mkPopt (Fin 2, Fin 0) (Fin 0, Fin 0) (Fin 1, Fin 0)
                     (Fin 1, Fin 0), []))
      (fun _ n => seq 0 n) (fun _ _ => 7) in
  nth_error (col0 (Cols2 [(1, Fin 2); (2, Fin 3); (2, Fin 5)])) 1 = Some 2
  /\ forall k, (k < 1)%nat ->
       nth_error (col0 (Cols2 [(1, Fin 2); (2, Fin 3); (2, Fin 5)])) k
       <> Some 2.
Proof.
  intros ext.
  apply (nearest_exact ext).
  - cbn. auto.
  - unfold NormNLD.nearest, argmin.
    cbn [col0 map fst argmin_from ext ext_abs_diff mkExternals].
    replace (1 - 2) with (- (1)) by ring. replace (2 - 2) with 0 by ring.
    rewrite Rabs_Ropp, Rabs_R1, Rabs_R0.
    destruct (Rlt_dec 0 1) as [_|Hn]; [|lra].
    destruct (Rlt_dec 0 0) as [Hn|_]; [lra|]. reflexivity.
Defined.

Lemma bind_Ok_inv {S A B : Type} (m : St S A) (k : A -> St S B) (s s' : S)
  (b : B) :
  bind m k s = (Ok b, s') ->
  exists a s1, m s = (Ok a, s1) /\ k a s1 = (Ok b, s').
Proof.
  unfold bind. destruct (m s) as [[a|e] s1]; [eauto | discriminate].
Qed.

Lemma getitem_Ok_inv {S A : Type} (key : string) (v : option A) (a : A)
  (s s' : S) :
  getitem key v s = (Ok a, s') -> v = Some a /\ s' = s.
Proof.
  destruct v; cbn; intros H; [|discriminate].
  injection H as <- <-. auto.
Qed.

Lemma of_result_Ok_inv {S A : Type} (r : result A) (a : A) (s s' : S) :
  of_result r s = (Ok a, s') -> r = Ok a /\ s' = s.
Proof. rewrite of_result_run. intros H. injection H as <- <-. auto. Qed.

Lemma map2_normalize (nld : curve) (A alpha : num) :
  map2 (fun nld_i Ex_i => (nld_i * A * Np.exp (alpha * Fin Ex_i))%num)
    (col1 nld) (col0 nld)
  = col1 (NormNLD.normalize nld A alpha).
Proof.
  destruct nld as [rows|rows]; cbn [col0 col1 NormNLD.normalize];
    induction rows as [|r rows IH]; try reflexivity.
  - destruct r as [Ex v]. cbn [map map2 fst snd] in *. rewrite IH.
    reflexivity.
  - destruct r as [[Ex v] u]. cbn [map map2 fst snd] in *. rewrite IH.
    reflexivity.
Qed.

(** X28.  When [norm_2points] returns [(nld_norm, A, alpha)], the
    densities [nld_norm] are those of [normalize] on the table of the
    object with the same [A] and [alpha]; the method has printed [A] and
    then the line with [alpha] and [A], and the object is as it was. *)
Theorem norm_2points_is_normalize (self self' : NormNLD.Self)
  (w w' : world num) (nld_norm : list num) (A alpha : num) :
  NormNLD.norm_2points (self, w) = (Ok (nld_norm, A, alpha), (self', w')) ->
  nld_norm = col1 (NormNLD.normalize (NormNLD.self_nld self) A alpha)
  /\ self' = self
  /\ trace w'
     = trace w
       ++ [EvPrint "" [A];
           EvPrint "Normalization parameters: alpha={0:1.2e} A={1:1.2e}"
             [alpha; A]]
  /\ draws w' = draws w.
Proof.
  unfold NormNLD.norm_2points. rewrite get_self_run. intros H.
  apply bind_Ok_inv in H as ([E1 nldE1] & s1 & G1 & H).
  apply getitem_Ok_inv in G1 as [_ ->].
  apply bind_Ok_inv in H as ([E2 nldE2] & s2 & G2 & H).
  apply getitem_Ok_inv in G2 as [_ ->].
  apply bind_Ok_inv in H as (fE1 & s3 & F1 & H).
  apply of_result_Ok_inv in F1 as [_ ->].
  apply bind_Ok_inv in H as (fE2 & s4 & F2 & H).
  apply of_result_Ok_inv in F2 as [F2 ->].
  apply bind_Ok_inv in H as (fE2' & s5 & F3 & H).
  apply of_result_Ok_inv in F3 as [F3 ->].
  erewrite bind_run in H by reflexivity.
  erewrite bind_run in H by reflexivity.
  injection H as <- <- <- <- <-.
  split; [apply map2_normalize|].
  split; [reflexivity|].
  cbn [trace draws]. rewrite <- app_assoc. split; reflexivity.
Qed.

Lemma norm_2points_is_normalize_witness :
  let self :=
    NormNLD.fresh (Cols2 [(0, Fin 1); (1, Fin 1)]) "2points"
      (mkPNorm (Some (0, Fin 3)) (Some (1, Fin 5)) None None None None None)
      "CT" (mkPExt (Some (1, 8)) None None None None)
      (mkPSpin (Fin 8) (Fin 0) None []) (Fin 1) "levels.txt" in
  exists nld_norm A alpha self' w',
    NormNLD.norm_2points (self, w0) = (Ok (nld_norm, A, alpha), (self', w'))
    /\ nld_norm = col1 (NormNLD.normalize (NormNLD.self_nld self) A alpha)
    /\ self' = self.
Proof.
  intros self.
  assert (Hpos : Forall (fun v => 0 < v) [1; 1]) by (repeat constructor; lra).
  destruct (log_interp1d_positive [0; 1] [1; 1] 0 eq_refl Hpos)
    as (y1 & _ & F1); [cbn; split; [lra | exact I] | cbn; lra |].
  destruct (log_interp1d_positive [0; 1] [1; 1] 1 eq_refl Hpos)
    as (y2 & _ & F2); [cbn; split; [lra | exact I] | cbn; lra |].
  pose proof (norm_2points_run self w0 0 1 (Fin 3) (Fin 5) (Fin (exp y1))
                (Fin (exp y2)) eq_refl eq_refl F1 F2) as Hfst.
  cbv zeta in Hfst.
  destruct (NormNLD.norm_2points (self, w0)) as [r [self' w']] eqn:Hrun.
  cbn [fst] in Hfst. subst r.
  do 5 eexists. split; [reflexivity|].
  destruct (norm_2points_is_normalize self self' w0 w' _ _ _ Hrun)
    as (Hn & Hself & _).
  split; [exact Hn|exact Hself].
Defined.

(** ** The calls of the fit *)


